(** * electron-esim: the eSIM lookup server (src/server.js)

    A shallow embedding of the two request handlers of the server, the
    throttle state, the response cache and the SIM specification scan,
    followed by the properties proved about them.

    Conventions of the model
    - A JavaScript string is the sequence of its UTF-16 code units.
      [trim] strips exactly the code units that ECMAScript calls white
      space or line terminators.  [toLowerCase] is the engine's: it is a
      parameter of the development, of which only one fact is used (it
      maps the empty string, and no other, to the empty string), so that
      every general theorem holds for the engine's own case mapping.
      Closed examples are computed with an engine that lowers A-Z, which
      is what every engine does on the ASCII text of the examples.
    - Timestamps are [Z]: [Date.now()] yields integral milliseconds and the
      only arithmetic is one subtraction and one addition of 30000, both
      exact in a JavaScript number.
    - Request bodies carry the field types of the HTTP interface: [query]
      and [deviceId] are strings or absent.
    - Handlers are programs over the effects they perform (clock reads,
      reads and writes of the module-level variables, awaited upstream
      calls).  They can be run to completion against an environment, or
      segment by segment, suspending at every [await], which is how the
      event loop interleaves requests. *)

From stdpp Require Import base option list strings gmap.
From Stdlib Require Import ZArith Lia.
From Stdlib Require Import Ascii.

Local Open Scope Z_scope.

(** ** JavaScript strings *)

Module JsString.

(** A string: its UTF-16 code units. *)
Abbreviation jsstring := (list N).

(** The string of an ASCII literal of the source. *)
Definition js (s : string) : jsstring :=
  N_of_ascii <$> String.list_ascii_of_string s.
#[global] Arguments js : simpl never.

(** WhiteSpace and LineTerminator of ECMAScript: TAB, LF, VT, FF, CR,
    SPACE, NO-BREAK SPACE, OGHAM SPACE MARK, EN QUAD .. HAIR SPACE, LINE
    SEPARATOR, PARAGRAPH SEPARATOR, NARROW NO-BREAK SPACE, MEDIUM
    MATHEMATICAL SPACE, IDEOGRAPHIC SPACE and ZERO WIDTH NO-BREAK SPACE
    (the space separators are those of the Unicode category Zs). *)
Definition isWhiteSpace (u : N) : bool :=
  ((9 <=? u) && (u <=? 13)
   || (u =? 32) || (u =? 160) || (u =? 5760)
   || (8192 <=? u) && (u <=? 8202)
   || (u =? 8232) || (u =? 8233) || (u =? 8239) || (u =? 8287)
   || (u =? 12288) || (u =? 65279))%N.

Fixpoint trimStart (s : jsstring) : jsstring :=
  match s with
  | [] => []
  | u :: s' => if isWhiteSpace u then trimStart s' else s
  end.

Fixpoint trimEnd (s : jsstring) : jsstring :=
  match s with
  | [] => []
  | u :: s' =>
      match trimEnd s' with
      | [] => if isWhiteSpace u then [] else [u]
      | r => u :: r
      end
  end.

(** [s.trim()] *)
Definition trim (s : jsstring) : jsstring := trimEnd (trimStart s).
#[global] Arguments trim : simpl never.

(** [s.startsWith(search)] *)
Fixpoint startsWith (s search : jsstring) {struct search} : bool :=
  match search, s with
  | [], _ => true
  | _ :: _, [] => false
  | a :: search', b :: s' => (a =? b)%N && startsWith s' search'
  end.

(** [s.includes(search)] *)
Fixpoint includes (s search : jsstring) : bool :=
  startsWith s search ||
  match s with
  | [] => false
  | _ :: s' => includes s' search
  end.

(** [parts.join(sep)] on an array of strings *)
Fixpoint join (sep : jsstring) (parts : list jsstring) : jsstring :=
  match parts with
  | [] => []
  | [x] => x
  | x :: rest => x ++ sep ++ join sep rest
  end.

(** Truthiness of a string: only the empty string is falsy. *)
Definition nonEmpty (s : jsstring) : bool :=
  match s with [] => false | _ :: _ => true end.

(** Truthiness of a value that is a string, or [undefined]/[null]. *)
Definition truthy (v : option jsstring) : bool :=
  match v with Some s => nonEmpty s | None => false end.

(** The string is made of white space only (the empty string is). *)
Definition allSpace (s : jsstring) : bool := forallb isWhiteSpace s.

(** The engine's [String.prototype.toLowerCase].  Its case mapping is the
    Unicode one and is not part of the server; it is taken as a
    parameter, with the one fact about it that the proofs use. *)
Class Engine := {
  toLowerCase : jsstring -> jsstring;
  toLowerCase_empty : forall s, toLowerCase s = [] <-> s = [];
}.
#[global] Arguments toLowerCase : simpl never.

(** The lowering of A-Z, code unit by code unit. *)
Definition lowerUnit (u : N) : N :=
  if ((65 <=? u) && (u <=? 90))%N then (u + 32)%N else u.

(** An engine to compute the examples with. *)
Definition asciiEngine : Engine.
Proof.
  refine {| toLowerCase := fmap lowerUnit |}.
  intros s. split; [apply fmap_nil_inv | by intros ->].
Defined.

End JsString.

Import JsString.

(** ** Data model *)

(** An item of the provider's search result array.  The handlers guard
    against falsy items, so an array holds [option searchResult]. *)
Record searchResult := SearchResult {
  sr_id : jsstring;
  sr_name : option jsstring;
  sr_thumbnail : option jsstring;
  sr_brand : option jsstring;
}.

(** The value of a specification entry: one string or an array of strings. *)
Inductive specValue :=
| VString (s : jsstring)
| VArray (items : list jsstring).

Record specEntry := SpecEntry {
  spec_name : option jsstring;
  spec_value : option specValue;
}.

(** A section; [specifications] is [None] when the field is not an array. *)
Record specSection := SpecSection {
  specifications : option (list (option specEntry));
}.

(** A device detail; [detailSpec] is [None] when the field is not an array. *)
Record deviceDetail := DeviceDetail {
  dev_name : option jsstring;
  detailSpec : option (list (option specSection));
}.

(** The user-facing messages (the literals of server.js, by line). *)
Inductive message :=
| MsgSearchNeedsQuery     (* line 58 *)
| MsgLocalThrottle        (* lines 65, 124 *)
| MsgBlockedSearch        (* line 71 *)
| MsgBlockedCheck         (* line 130 *)
| MsgRateLimited          (* lines 89, 215 *)
| MsgSearchFailed         (* line 95 *)
| MsgCheckNeedsInput      (* line 109 *)
| MsgCheckFailed          (* line 221 *)
| MsgNoDevice             (* line 146 *)
| MsgNoSimDetails         (* line 187 *)
| MsgSupportsEsim         (* line 202 *)
| MsgNoEsimEvidence.      (* line 203 *)

(** The [code] field of an error body. *)
Inductive code :=
| LOCAL_THROTTLE
| UPSTREAM_BLOCKED
| Code429.

(** The answer built by /api/check-esim, which is also what the cache
    stores: [{found: false, message}] or the full verdict. *)
Inductive payload :=
| NotFound (msg : message)
| Found (deviceName : option jsstring) (deviceId : jsstring)
        (simRaw : option jsstring) (supportsEsim : option bool) (msg : message).

Definition found (p : payload) : bool :=
  match p with NotFound _ => false | Found _ _ _ _ _ => true end.

Definition simRaw (p : payload) : option jsstring :=
  match p with NotFound _ => None | Found _ _ raw _ _ => raw end.

Definition supportsEsim (p : payload) : option bool :=
  match p with NotFound _ => None | Found _ _ _ e _ => e end.

(** An item of the public search response. *)
Record searchHit := SearchHit {
  hit_id : jsstring;
  hit_name : option jsstring;
  hit_image : option jsstring;
  hit_brand : option jsstring;
}.

Inductive body :=
| ErrorBody (error : message) (c : option code) (details : option jsstring)
| ResultsBody (results : list searchHit)
| PayloadBody (p : payload) (fromCache : bool).

Record response := Response { status : Z; json : body }.

(** A rejected upstream promise, or an exception raised in a handler:
    [err.response.status], [err.code] and [err.message]. *)
Record error := Error {
  err_status : option Z;
  err_code : option jsstring;
  err_message : jsstring;
}.

(** The module-level variables [cache], [lastCallTs], [remoteBlockedUntil]. *)
Record state := State {
  cache : gmap jsstring payload;
  lastCallTs : Z;
  remoteBlockedUntil : Z;
}.

Definition MIN_INTERVAL_MS : Z := 5000.

Definition initial : state :=
  {| cache := ∅; lastCallTs := 0; remoteBlockedUntil := 0 |}.

(** The two endpoints and the fields of their request bodies. *)
Inductive request :=
| SearchDevices (query : option jsstring)
| CheckEsim (query deviceId : option jsstring).

(** ** Handler programs

    A handler is a tree of the effects it performs.  [Await] is the only
    effect at which the JavaScript event loop may run another handler. *)

(** How a promise settles. *)
Inductive outcome (X : Type) :=
| Resolved (x : X)
| Rejected (e : error).
Arguments Resolved {X} x.
Arguments Rejected {X} e.

(** The two operations of the gsmarena-api client that the server uses.
    A search resolves to an array, or to something that is not one. *)
Inductive upstream : Type -> Type :=
| search_search (query : option jsstring) : upstream (option (list (option searchResult)))
| catalog_getDevice (id : jsstring) : upstream deviceDetail.

Inductive effect : Type -> Type :=
| DateNow : effect Z
| GetLastCallTs : effect Z
| SetLastCallTs (t : Z) : effect unit
| GetRemoteBlockedUntil : effect Z
| SetRemoteBlockedUntil (t : Z) : effect unit
| CacheGet (key : jsstring) : effect (option payload)
| CacheSet (key : jsstring) (p : payload) : effect unit
| Await {X : Type} (call : upstream X) : effect (outcome X).

Inductive prog (A : Type) : Type :=
| Ret (a : A)
| Throw (e : error)
| Vis {X : Type} (e : effect X) (k : X -> prog A).
Arguments Ret {A} a.
Arguments Throw {A} e.
Arguments Vis {A X} e k.

Fixpoint bind {A B : Type} (p : prog A) (f : A -> prog B) : prog B :=
  match p with
  | Ret a => f a
  | Throw e => Throw e
  | Vis e k => Vis e (fun x => bind (k x) f)
  end.

(** [try { p } catch (err) { h err }] *)
Fixpoint tryCatch {A : Type} (p : prog A) (h : error -> prog A) : prog A :=
  match p with
  | Ret a => Ret a
  | Throw e => h e
  | Vis e k => Vis e (fun x => tryCatch (k x) h)
  end.

#[global] Instance prog_ret : MRet prog := @Ret.
#[global] Instance prog_bind : MBind prog := fun A B f p => bind p f.

Definition perform {X : Type} (e : effect X) : prog X := Vis e Ret.

(** [await call]: a rejection is thrown at the [await]. *)
Definition await {X : Type} (call : upstream X) : prog X :=
  Vis (Await call) (fun o => match o with Resolved x => Ret x | Rejected e => Throw e end).

(** ** Running a handler *)

(** The upstream calls a run issues, in order. *)
Inductive call :=
| CallSearch (query : option jsstring)
| CallGetDevice (id : jsstring).

Definition callOf {X : Type} (c : upstream X) : call :=
  match c with
  | search_search q => CallSearch q
  | catalog_getDevice id => CallGetDevice id
  end.

(** How a synchronous segment of a handler ends: it returns, throws, or
    is suspended at an [await] with the rest of the handler pending. *)
Inductive halt (A : Type) : Type :=
| Returned (a : A)
| Raised (e : error)
| Suspended {X : Type} (c : upstream X) (k : outcome X -> prog A).
Arguments Returned {A} a.
Arguments Raised {A} e.
Arguments Suspended {A X} c k.

(** The effects on the module-level variables. *)
Definition setLastCallTs (t : Z) (st : state) : state :=
  {| cache := cache st; lastCallTs := t; remoteBlockedUntil := remoteBlockedUntil st |}.

Definition setRemoteBlockedUntil (t : Z) (st : state) : state :=
  {| cache := cache st; lastCallTs := lastCallTs st; remoteBlockedUntil := t |}.

Definition cacheSet (key : jsstring) (p : payload) (st : state) : state :=
  {| cache := <[key := p]> (cache st);
     lastCallTs := lastCallTs st;
     remoteBlockedUntil := remoteBlockedUntil st |}.

(** [exec clock p st n] runs [p] up to its first [await]; the [i]-th call
    of [Date.now()] in the segment reads [clock i], and [n] counts the
    reads made so far. *)
Fixpoint exec {A : Type} (clock : nat -> Z) (p : prog A) (st : state) (n : nat)
    : halt A * state * nat :=
  match p with
  | Ret a => (Returned a, st, n)
  | Throw e => (Raised e, st, n)
  | Vis e k =>
      match e in effect X return (X -> prog A) -> halt A * state * nat with
      | DateNow => fun k => exec clock (k (clock n)) st (S n)
      | GetLastCallTs => fun k => exec clock (k (lastCallTs st)) st n
      | SetLastCallTs t => fun k => exec clock (k tt) (setLastCallTs t st) n
      | GetRemoteBlockedUntil => fun k => exec clock (k (remoteBlockedUntil st)) st n
      | SetRemoteBlockedUntil t => fun k => exec clock (k tt) (setRemoteBlockedUntil t st) n
      | CacheGet key => fun k => exec clock (k (cache st !! key)) st n
      | CacheSet key p => fun k => exec clock (k tt) (cacheSet key p st) n
      | Await c => fun k => (Suspended c k, st, n)
      end k
  end.

(** The environment of one request handled without interleaving: the
    clock readings it will see and how the provider answers each call. *)
Record env := Env {
  clock : nat -> Z;
  reply : forall X : Type, upstream X -> outcome X;
}.

Record run_result (A : Type) := RunResult {
  settled : outcome A;
  final : state;
  calls : list call;
  reads : nat;
}.
Arguments RunResult {A} settled final calls reads.
Arguments settled {A} r.
Arguments final {A} r.
Arguments calls {A} r.
Arguments reads {A} r.

(** [run_from e p st n tr] runs [p] to completion, every [await] being
    answered at once by the environment. *)
Fixpoint run_from {A : Type} (e : env) (p : prog A) (st : state) (n : nat)
    (tr : list call) : run_result A :=
  match p with
  | Ret a => RunResult (Resolved a) st tr n
  | Throw err => RunResult (Rejected err) st tr n
  | Vis ev k =>
      match ev in effect X return (X -> prog A) -> run_result A with
      | DateNow => fun k => run_from e (k (clock e n)) st (S n) tr
      | GetLastCallTs => fun k => run_from e (k (lastCallTs st)) st n tr
      | SetLastCallTs t => fun k => run_from e (k tt) (setLastCallTs t st) n tr
      | GetRemoteBlockedUntil => fun k => run_from e (k (remoteBlockedUntil st)) st n tr
      | SetRemoteBlockedUntil t => fun k => run_from e (k tt) (setRemoteBlockedUntil t st) n tr
      | CacheGet key => fun k => run_from e (k (cache st !! key)) st n tr
      | CacheSet key p => fun k => run_from e (k tt) (cacheSet key p st) n tr
      | Await c => fun k => run_from e (k (reply e _ c)) st n (tr ++ [callOf c])
      end k
  end.

Definition run {A : Type} (e : env) (p : prog A) (st : state) : run_result A :=
  run_from e p st 0%nat [].

(** The request's current time: the first clock reading of its handler. *)
Definition now (e : env) : Z := clock e 0%nat.

(** ** The event loop

    Requests arrive while earlier ones are suspended at an [await]; a
    suspended handler resumes when its upstream call settles. *)

Record task := Task {
  task_type : Type;
  task_call : upstream task_type;
  task_rest : outcome task_type -> prog response;
}.

(** What the provider sends back for a call, whichever call it is. *)
Inductive answer :=
| SearchAnswer (o : outcome (option (list (option searchResult))))
| DeviceAnswer (o : outcome deviceDetail).

Definition settle {X : Type} (c : upstream X) (a : answer) : option (outcome X) :=
  match c in upstream X return option (outcome X) with
  | search_search _ => match a with SearchAnswer o => Some o | DeviceAnswer _ => None end
  | catalog_getDevice _ => match a with DeviceAnswer o => Some o | SearchAnswer _ => None end
  end.

Inductive event :=
| Arrive (req : request) (clk : nat -> Z)
| Settle (i : nat) (a : answer) (clk : nat -> Z).

(** An upstream call as it leaves the server: the call, the time at which
    it is issued and the value of [remoteBlockedUntil] at that time. *)
Record issued := Issued {
  issued_call : call;
  issued_at : Z;
  issued_blockedUntil : Z;
}.

Record system := System {
  srv : state;
  pending : list task;
  sent : list response;
  wire : list issued;
}.

Definition boot : system :=
  {| srv := initial; pending := []; sent := []; wire := [] |}.

(** Run one synchronous segment and file its end. *)
Definition segment (clk : nat -> Z) (p : prog response) (s : system) (rest : list task)
    : system :=
  match exec clk p (srv s) 0%nat with
  | (Returned r, st, _) =>
      {| srv := st; pending := rest; sent := sent s ++ [r]; wire := wire s |}
  | (Raised _, st, _) =>
      {| srv := st; pending := rest; sent := sent s; wire := wire s |}
  | (Suspended c k, st, n) =>
      {| srv := st;
         pending := rest ++ [Task _ c k];
         sent := sent s;
         wire := wire s ++ [Issued (callOf c) (clk n) (remoteBlockedUntil st)] |}
  end.

(** ** Sample data *)

Module Sample.

(** A clock that reads [t] for the whole segment. *)
Definition steady (t : Z) : nat -> Z := fun _ => t.

(** A provider that settles every search with [hits] and every device
    fetch with [detail]. *)
Definition provider (hits : outcome (option (list (option searchResult))))
    (detail : outcome deviceDetail) : forall X : Type, upstream X -> outcome X :=
  fun X c =>
    match c in upstream X return outcome X with
    | search_search _ => hits
    | catalog_getDevice _ => detail
    end.

(** A clock that reads [ts] in order, then [t] for good. *)
Definition readings (ts : list Z) (t : Z) : nat -> Z :=
  fun i => default t (ts !! i).

(** A server that called upstream at 10000 and is blocked until 40000. *)
Definition cooling : state :=
  {| cache := ∅; lastCallTs := 10000; remoteBlockedUntil := 40000 |}.

(** The rejection of an HTTP client on a non-2xx status. *)
Definition http (code : Z) : error :=
  {| err_status := Some code; err_code := None;
     err_message := js "Request failed" |}.

Definition entry (name : jsstring) (v : specValue) : specEntry :=
  {| spec_name := Some name; spec_value := Some v |}.

Definition section (es : list specEntry) : option specSection :=
  Some {| specifications := Some (Some <$> es) |}.

Definition pixel : searchResult :=
  {| sr_id := js "google_pixel_8-12546"; sr_name := Some (js "Google Pixel 8");
     sr_thumbnail := Some (js "pixel-8.jpg"); sr_brand := None |}.

Definition pixelDetail : deviceDetail :=
  {| dev_name := Some (js "Google Pixel 8");
     detailSpec := Some
       [ section [entry (js "Technology") (VString (js "GSM / HSPA / LTE / 5G"))];
         section [entry (js "Dimensions") (VString (js "150.5 x 70.8 x 8.9 mm"));
                  entry (js "SIM") (VArray [js "Nano-SIM"; js "eSIM"])] ] |}.

(** Two sim-named entries, the second with an empty value. *)
Definition twoSims : deviceDetail :=
  {| dev_name := Some (js "Phone A");
     detailSpec := Some
       [ section [entry (js "SIM") (VString (js "Nano-SIM"))];
         section [entry (js "SIM 2") (VString [])] ] |}.

(** Two sim-named entries with a truthy value, in different sections,
    and an entry named otherwise after them. *)
Definition dualSim : deviceDetail :=
  {| dev_name := Some (js "Phone D");
     detailSpec := Some
       [ section [entry (js "SIM") (VString (js "Nano-SIM"))];
         section [entry (js "Dimensions") (VString (js "150 x 70 x 8 mm"));
                  entry (js "Dual SIM") (VArray [js "Nano-SIM"; js "eSIM"])];
         section [entry (js "Colors") (VString (js "Black"))] ] |}.

(** One sim-named entry whose value is an empty array. *)
Definition emptySimList : deviceDetail :=
  {| dev_name := Some (js "Phone B");
     detailSpec := Some [ section [entry (js "SIM") (VArray [])] ] |}.

(** No sim-named entry. *)
Definition noSim : deviceDetail :=
  {| dev_name := Some (js "Tablet C");
     detailSpec := Some
       [ section [entry (js "Technology") (VString (js "No cellular connectivity"))] ] |}.

(** A search that finds nothing, then the same query again. *)
Definition missThenRepeat : list event :=
  [ Arrive (CheckEsim (Some (js "iPhone 99")) None) (steady 10000);
    Settle 0 (SearchAnswer (Resolved (Some []))) (steady 10400) ].

(** A check by query whose search is still pending when a later search
    is rate-limited upstream; the pending search then resolves. *)
Definition race : list event :=
  [ Arrive (CheckEsim (Some (js "pixel 8")) None) (steady 10000);
    Arrive (SearchDevices (Some (js "galaxy"))) (steady 15000);
    Settle 1 (SearchAnswer (Rejected (http 429))) (steady 15100);
    Settle 0 (SearchAnswer (Resolved (Some [Some pixel]))) (steady 15200) ].

End Sample.

(** ** The server, for any engine *)

Section Server.

Context {engine : Engine}.

(** ** Pure helpers of server.js *)

(** [x || null] on an optional string. *)
Definition orNull (v : option jsstring) : option jsstring :=
  if truthy v then v else None.

(** [a || b] on optional strings. *)
Definition orElse (a b : option jsstring) : option jsstring :=
  if truthy a then a else b.

Definition normalizeCacheKey (query deviceId : option jsstring) : jsstring :=
  if truthy deviceId then js "id:" ++ default [] deviceId
  else js "q:" ++ toLowerCase (trim (default [] query)).

Definition mapDeviceResult (device : option searchResult) : option searchHit :=
  match device with
  | None => None
  | Some d =>
      Some {| hit_id := sr_id d;
              hit_name := sr_name d;
              hit_image := orNull (sr_thumbnail d);
              hit_brand := orNull (sr_brand d) |}
  end.

(** [results.slice(0, 8).map(mapDeviceResult).filter(Boolean)] *)
Definition publicResults (results : list (option searchResult)) : list searchHit :=
  omap mapDeviceResult (take 8 results).

(** *** The specification scan (lines 159-177) *)

Definition valueTruthy (v : option specValue) : bool :=
  match v with
  | None => false
  | Some (VString s) => nonEmpty s
  | Some (VArray _) => true
  end.

(** The text captured from a value: [value.join(" | ")] or [String(value)]. *)
Definition captured (v : specValue) : jsstring :=
  match v with
  | VArray items => join (js " | ") items
  | VString s => s
  end.

Definition nameHasSim (name : jsstring) : bool :=
  includes (toLowerCase name) (js "sim").

(** One iteration of the inner loop on the running [simText]. *)
Definition scanEntry (simText : option jsstring) (spec : option specEntry) : option jsstring :=
  match spec with
  | None => simText
  | Some e =>
      match spec_name e, spec_value e with
      | Some name, Some v =>
          if negb (nonEmpty name) || negb (valueTruthy (Some v)) then simText
          else if nameHasSim name then Some (captured v)
          else simText
      | _, _ => simText
      end
  end.

(** One iteration of the outer loop. *)
Definition scanSection (simText : option jsstring) (section : option specSection) : option jsstring :=
  match section with
  | Some {| specifications := Some specs |} => foldl scanEntry simText specs
  | _ => simText
  end.

Definition scanSim (device : deviceDetail) : option jsstring :=
  match detailSpec device with
  | Some sections => foldl scanSection None sections
  | None => None
  end.

(** *** The answer payload (lines 179-204) *)

Definition answerPayload (device : deviceDetail) (firstResult : option searchResult)
    (query : option jsstring) (selectedId : jsstring) : payload :=
  let deviceName :=
    orElse (orElse (dev_name device) (firstResult ≫= sr_name)) query in
  match scanSim device with
  | Some simText =>
      if nonEmpty simText then
        let supports := includes (toLowerCase simText) (js "esim") in
        Found deviceName selectedId (Some simText) (Some supports)
              (if supports then MsgSupportsEsim else MsgNoEsimEvidence)
      else Found deviceName selectedId None None MsgNoSimDetails
  | None => Found deviceName selectedId None None MsgNoSimDetails
  end.

(** ** The server (src/server.js) *)

Definition upstreamBlockedError : error :=
  {| err_status := None;
     err_code := Some (js "UPSTREAM_BLOCKED");
     err_message := js "UPSTREAM_BLOCKED" |}.

(** Reading a property of [null] (line 153); the text is the engine's. *)
Definition typeError : error :=
  {| err_status := None;
     err_code := None;
     err_message := js "Cannot read properties of null (reading 'id')" |}.

Definition safeSearchDevices (query : option jsstring) : prog (list (option searchResult)) :=
  t ← perform DateNow;
  blocked ← perform GetRemoteBlockedUntil;
  if t <? blocked then Throw upstreamBlockedError
  else
    results ← await (search_search query);
    mret (default [] results).

(** [!query || !query.trim()] *)
Definition blank (query : option jsstring) : bool :=
  negb (truthy query) || negb (nonEmpty (trim (default [] query))).

(** [(err.response && err.response.status === 429) || err.code === "UPSTREAM_BLOCKED"] *)
Definition isRateLimitSignal (err : error) : bool :=
  bool_decide (err_status err = Some 429)
  || bool_decide (err_code err = Some (js "UPSTREAM_BLOCKED")).
#[global] Arguments isRateLimitSignal : simpl never.

(** POST /api/search-devices (lines 53-99) *)
Definition searchDevices (query : option jsstring) : prog response :=
  tryCatch
    (if blank query then
       mret (Response 400 (ErrorBody MsgSearchNeedsQuery None None))
     else
       now ← perform DateNow;
       last ← perform GetLastCallTs;
       if now - last <? MIN_INTERVAL_MS then
         mret (Response 429 (ErrorBody MsgLocalThrottle (Some LOCAL_THROTTLE) None))
       else
         blocked ← perform GetRemoteBlockedUntil;
         if now <? blocked then
           mret (Response 429 (ErrorBody MsgBlockedSearch (Some UPSTREAM_BLOCKED) None))
         else
           perform (SetLastCallTs now);;
           let cleanQuery := trim (default [] query) in
           results ← safeSearchDevices (Some cleanQuery);
           mret (Response 200 (ResultsBody (publicResults results))))
    (fun err =>
       if isRateLimitSignal err then
         t ← perform DateNow;
         perform (SetRemoteBlockedUntil (t + 30000));;
         mret (Response 429 (ErrorBody MsgRateLimited (Some Code429) None))
       else
         mret (Response 500 (ErrorBody MsgSearchFailed None (Some (err_message err))))).

(** Lines 156-208: fetch the device, scan it, cache and return the answer. *)
Definition answerDevice (cacheKey : jsstring) (query : option jsstring)
    (selectedId : jsstring) (firstResult : option searchResult) : prog response :=
  device ← await (catalog_getDevice selectedId);
  let payload := answerPayload device firstResult query selectedId in
  perform (CacheSet cacheKey payload);;
  mret (Response 200 (PayloadBody payload false)).

(** POST /api/check-esim (lines 102-225) *)
Definition checkEsim (query deviceId : option jsstring) : prog response :=
  tryCatch
    (if blank query && negb (truthy deviceId) then
       mret (Response 400 (ErrorBody MsgCheckNeedsInput None None))
     else
       let cleanQuery := if truthy query then trim <$> query else None in
       let cacheKey := normalizeCacheKey cleanQuery deviceId in
       hit ← perform (CacheGet cacheKey);
       match hit with
       | Some stored => mret (Response 200 (PayloadBody stored true))
       | None =>
           now ← perform DateNow;
           last ← perform GetLastCallTs;
           if now - last <? MIN_INTERVAL_MS then
             mret (Response 429 (ErrorBody MsgLocalThrottle (Some LOCAL_THROTTLE) None))
           else
             blocked ← perform GetRemoteBlockedUntil;
             if now <? blocked then
               mret (Response 429 (ErrorBody MsgBlockedCheck (Some UPSTREAM_BLOCKED) None))
             else
               perform (SetLastCallTs now);;
               if negb (truthy deviceId) then
                 results ← safeSearchDevices cleanQuery;
                 match results with
                 | [] =>
                     let payload := NotFound MsgNoDevice in
                     perform (CacheSet cacheKey payload);;
                     mret (Response 200 (PayloadBody payload false))
                 | None :: _ => Throw typeError
                 | Some firstResult :: _ =>
                     answerDevice cacheKey query (sr_id firstResult) (Some firstResult)
                 end
               else
                 answerDevice cacheKey query (default [] deviceId) None
       end)
    (fun err =>
       if isRateLimitSignal err then
         t ← perform DateNow;
         perform (SetRemoteBlockedUntil (t + 30000));;
         mret (Response 429 (ErrorBody MsgRateLimited (Some Code429) None))
       else
         mret (Response 500 (ErrorBody MsgCheckFailed None (Some (err_message err))))).


Definition handler (req : request) : prog response :=
  match req with
  | SearchDevices query => searchDevices query
  | CheckEsim query deviceId => checkEsim query deviceId
  end.

Definition step (s : system) (ev : event) : system :=
  match ev with
  | Arrive req clk => segment clk (handler req) s (pending s)
  | Settle i a clk =>
      match pending s !! i with
      | Some t =>
          match settle (task_call t) a with
          | Some o => segment clk (task_rest t o) s (delete i (pending s))
          | None => s
          end
      | None => s
      end
  end.

Definition play (evs : list event) : system := foldl step boot evs.

Definition reachable (st : state) : Prop := exists evs, srv (play evs) = st.

(** ** Vocabulary of the properties *)

(** The specification entries of a device in scan order: sections in
    order, entries in order within each section. *)
Definition sectionEntries (section : option specSection) : list specEntry :=
  match section with
  | Some {| specifications := Some specs |} => omap id specs
  | _ => []
  end.

Definition entries (device : deviceDetail) : list specEntry :=
  match detailSpec device with
  | Some sections => concat (sectionEntries <$> sections)
  | None => []
  end.

(** The entry's name contains "sim", case-insensitively. *)
Definition simNamed (e : specEntry) : bool :=
  match spec_name e with
  | Some name => nameHasSim name
  | None => false
  end.

(** A sim-named entry that the scan does not skip: its value is truthy. *)
Definition usable (e : specEntry) : bool :=
  simNamed e && valueTruthy (spec_value e).

(** The text of an entry's value; empty when there is no value. *)
Definition textOf (e : specEntry) : jsstring :=
  match spec_value e with
  | Some v => captured v
  | None => []
  end.

(** [simText] as the payload reports it: [null] when falsy. *)
Definition reported (simText : option jsstring) : option jsstring :=
  match simText with
  | Some t => if nonEmpty t then Some t else None
  | None => None
  end.

(** The LookupKey of a check-esim request (lines 112-113). *)
Definition lookupKey (query deviceId : option jsstring) : jsstring :=
  normalizeCacheKey (if truthy query then trim <$> query else None) deviceId.

(** The request passes validation. *)
Definition valid (req : request) : bool :=
  match req with
  | SearchDevices query => negb (blank query)
  | CheckEsim query deviceId => negb (blank query && negb (truthy deviceId))
  end.

(** The request is upstream-bound in [st]: it passes validation and is
    not answered from the cache. *)
Definition upstreamBound (st : state) (req : request) : bool :=
  valid req &&
  match req with
  | SearchDevices _ => true
  | CheckEsim query deviceId =>
      match cache st !! lookupKey query deviceId with
      | Some _ => false
      | None => true
      end
  end.

(** The first upstream call of an upstream-bound request that the gate lets
    through. *)
Definition firstCall (req : request) : call :=
  match req with
  | SearchDevices query => CallSearch (Some (trim (default [] query)))
  | CheckEsim query deviceId =>
      if truthy deviceId then CallGetDevice (default [] deviceId)
      else CallSearch (if truthy query then trim <$> query else None)
  end.

(** The public shape of a search result that is not [null]. *)
Definition toHit (d : searchResult) : searchHit :=
  {| hit_id := sr_id d;
     hit_name := sr_name d;
     hit_image := orNull (sr_thumbnail d);
     hit_brand := orNull (sr_brand d) |}.

Definition codeOf (r : response) : option code :=
  match json r with
  | ErrorBody _ c _ => c
  | _ => None
  end.

Definition throttled : response :=
  Response 429 (ErrorBody MsgLocalThrottle (Some LOCAL_THROTTLE) None).

Definition rateLimited : response :=
  Response 429 (ErrorBody MsgRateLimited (Some Code429) None).

(** The error, if any, with which the environment rejects a call. *)
Definition rejection (e : env) (c : call) : option error :=
  match c with
  | CallSearch q =>
      match reply e _ (search_search q) with Rejected err => Some err | Resolved _ => None end
  | CallGetDevice id =>
      match reply e _ (catalog_getDevice id) with Rejected err => Some err | Resolved _ => None end
  end.

(** The device, if any, that the environment returns for a call. *)
Definition deviceFor (e : env) (c : call) : option deviceDetail :=
  match c with
  | CallSearch _ => None
  | CallGetDevice id =>
      match reply e _ (catalog_getDevice id) with Resolved d => Some d | Rejected _ => None end
  end.

(** The search results, if any, that [safeSearchDevices] gets for a call. *)
Definition resultsFor (e : env) (c : call) : option (list (option searchResult)) :=
  match c with
  | CallSearch q =>
      match reply e _ (search_search q) with
      | Resolved raw => Some (default [] raw)
      | Rejected _ => None
      end
  | CallGetDevice _ => None
  end.

(** The gate lets the request through at time [t]: it is upstream-bound,
    at least [MIN_INTERVAL_MS] after the last call and not in the blocked
    window. *)
Definition passesGate (st : state) (req : request) (t : Z) : bool :=
  upstreamBound st req
  && negb (t - lastCallTs st <? MIN_INTERVAL_MS)
  && negb (t <? remoteBlockedUntil st).

(** A settled handler, as the end of a segment. *)
Definition haltOf {A : Type} (o : outcome A) : halt A :=
  match o with
  | Resolved a => Returned a
  | Rejected err => Raised err
  end.

(** The system after it answered [r] at once: nothing else changes. *)
Definition answered (s : system) (r : response) : system :=
  {| srv := srv s; pending := pending s; sent := sent s ++ [r]; wire := wire s |}.

(** Every [cache.set] of the program is at a key satisfying [P]. *)
Fixpoint cacheWrites {A : Type} (P : jsstring -> Prop) (p : prog A) : Prop :=
  match p with
  | Ret _ | Throw _ => True
  | Vis e k =>
      match e with CacheSet key _ => P key | _ => True end
      /\ forall x, cacheWrites P (k x)
  end.

Definition properKey (key : jsstring) : Prop := key <> js "q:".

(** The invariant of the event loop behind the cache properties: no entry
    under the bare key, and no suspended handler about to write one. *)
Definition keysProper (s : system) : Prop :=
  cache (srv s) !! js "q:" = None
  /\ Forall (fun t => forall o, cacheWrites properKey (task_rest t o)) (pending s).

(** ** Vocabulary of the further properties *)

(** Every effect of the program satisfies [P]. *)
Fixpoint effectsAll {A : Type} (P : forall X : Type, effect X -> Prop) (p : prog A) : Prop :=
  match p with
  | Ret _ | Throw _ => True
  | Vis e k => P _ e /\ forall x, effectsAll P (k x)
  end.

(** The effect, if it is a [cache.set], stores a pair satisfying [P]. *)
Definition storesOnly (P : jsstring -> payload -> Prop) (X : Type) (e : effect X) : Prop :=
  match e with
  | CacheSet key p => P key p
  | _ => True
  end.

(** The effect is not an assignment to [lastCallTs]. *)
Definition keepsLastCallTs (X : Type) (e : effect X) : Prop :=
  match e with
  | SetLastCallTs _ => False
  | _ => True
  end.

(** Whatever follows the first [await] of the program leaves [lastCallTs]
    alone. *)
Fixpoint reservesFirst {A : Type} (p : prog A) : Prop :=
  match p with
  | Ret _ | Throw _ => True
  | Vis e k =>
      match e in effect X return (X -> prog A) -> Prop with
      | Await _ => fun k => forall o, effectsAll keepsLastCallTs (k o)
      | _ => fun k => forall x, reservesFirst (k x)
      end k
  end.

(** What a cache entry looks like: a not-found payload sits under a query
    key; a verdict under a device key is for that device, and its
    [simRaw], [supportsEsim] and [message] agree. *)
Definition coherent (key : jsstring) (p : payload) : Prop :=
  match p with
  | NotFound msg => msg = MsgNoDevice /\ startsWith key (js "q:") = true
  | Found _ id raw verdict msg =>
      (forall d, key = js "id:" ++ d -> id = d)
      /\ match raw with
         | None => verdict = None /\ msg = MsgNoSimDetails
         | Some text =>
             nonEmpty text = true
             /\ verdict = Some (includes (toLowerCase text) (js "esim"))
             /\ msg = (if includes (toLowerCase text) (js "esim")
                       then MsgSupportsEsim else MsgNoEsimEvidence)
         end
  end.

(** The event-loop invariant behind [coherent]. *)
Definition entriesCoherent (s : system) : Prop :=
  map_Forall coherent (cache (srv s))
  /\ Forall (fun t => forall o, effectsAll (storesOnly coherent) (task_rest t o))
            (pending s).

(** The event-loop invariant behind the reservation: no suspended handler
    will assign [lastCallTs]. *)
Definition reservationsMade (s : system) : Prop :=
  Forall (fun t => forall o, effectsAll keepsLastCallTs (task_rest t o)) (pending s).

(** The status and the body of a response go together, and the body of a
    200 is that of the endpoint. *)
Definition shaped (req : request) (r : response) : Prop :=
  match json r with
  | ResultsBody _ => status r = 200 /\ exists q, req = SearchDevices q
  | PayloadBody _ _ => status r = 200 /\ exists q d, req = CheckEsim q d
  | ErrorBody _ None None => status r = 400
  | ErrorBody _ (Some _) None => status r = 429
  | ErrorBody _ None (Some _) => status r = 500
  | ErrorBody _ (Some _) (Some _) => False
  end.

(** [lastCallTs] after an event, read off the state before it. *)
Definition reservedAfter (s : system) (ev : event) : Z :=
  match ev with
  | Arrive req clk =>
      if passesGate (srv s) req (clk 0%nat) then clk 0%nat else lastCallTs (srv s)
  | Settle _ _ _ => lastCallTs (srv s)
  end.

(** Every path of the program ends in a [return], none in an uncaught
    [throw]. *)
Fixpoint neverRaises {A : Type} (p : prog A) : Prop :=
  match p with
  | Ret _ => True
  | Throw _ => False
  | Vis _ k => forall x, neverRaises (k x)
  end.

(** The number of requests among the events. *)
Definition arrivals (evs : list event) : nat :=
  length (List.filter (fun ev => match ev with Arrive _ _ => true | Settle _ _ _ => false end)
                      evs).

(** The event-loop invariant behind the accounting of requests. *)
Definition accounted (evs : list event) : Prop :=
  (length (sent (play evs)) + length (pending (play evs)))%nat = arrivals evs
  /\ Forall (fun t => forall o, neverRaises (task_rest t o)) (pending (play evs)).

(** ** Properties of the string methods *)

Lemma trimStart_allSpace s : allSpace s = true -> trimStart s = [].
Proof.
  induction s as [|u s IH]; simpl; [done|].
  destruct (isWhiteSpace u); simpl; [auto | done].
Qed.

Lemma allSpace_trimStart s : allSpace (trimStart s) = true -> allSpace s = true.
Proof.
  induction s as [|u s IH]; simpl; [done|].
  destruct (isWhiteSpace u) eqn:Hu; simpl; [auto|]. by rewrite Hu.
Qed.

Lemma trimEnd_empty s : trimEnd s = [] -> allSpace s = true.
Proof.
  induction s as [|u s IH]; simpl; [done|].
  destruct (trimEnd s); [|done].
  destruct (isWhiteSpace u); [auto | done].
Qed.

Lemma trimEnd_cons u s :
  trimEnd (u :: s) =
  match trimEnd s with
  | [] => if isWhiteSpace u then [] else [u]
  | r => u :: r
  end.
Proof. reflexivity. Qed.

Lemma trimEnd_idem s : trimEnd (trimEnd s) = trimEnd s.
Proof.
  induction s as [|u s IH]; simpl; [done|].
  destruct (trimEnd s) as [|u' r] eqn:Hr.
  - destruct (isWhiteSpace u) eqn:Hu; simpl; [done|]. by rewrite Hu.
  - by rewrite trimEnd_cons, IH.
Qed.

(** A string is trimmed to nothing exactly when it is all white space. *)
Lemma trim_empty_iff s : nonEmpty (trim s) = false <-> allSpace s = true.
Proof.
  unfold trim. split.
  - intros H. apply allSpace_trimStart, trimEnd_empty.
    by destruct (trimEnd (trimStart s)).
  - intros H. by rewrite trimStart_allSpace.
Qed.

(** A string that starts with no white space keeps its first code unit
    under [trimEnd], so [trimStart] has nothing left to strip. *)
Lemma trimStart_trimEnd_fixed s :
  trimStart s = s -> trimStart (trimEnd s) = trimEnd s.
Proof.
  destruct s as [|u s]; [done|].
  rewrite trimEnd_cons. simpl.
  destruct (isWhiteSpace u) eqn:Hu.
  - intros H. exfalso.
    assert (Hlen : forall t, (length (trimStart t) <= length t)%nat).
    { induction t as [|a t IHt]; simpl; [lia|].
      destruct (isWhiteSpace a); simpl; lia. }
    specialize (Hlen s). rewrite H in Hlen. simpl in Hlen. lia.
  - intros _. destruct (trimEnd s); simpl; by rewrite Hu.
Qed.

Lemma trimStart_idem s : trimStart (trimStart s) = trimStart s.
Proof.
  induction s as [|u s IH]; simpl; [done|].
  destruct (isWhiteSpace u) eqn:Hu; [done|]. simpl. by rewrite Hu.
Qed.

Lemma trim_idem s : trim (trim s) = trim s.
Proof.
  unfold trim.
  rewrite (trimStart_trimEnd_fixed (trimStart s)) by apply trimStart_idem.
  apply trimEnd_idem.
Qed.

Lemma trimEnd_allSpace s : allSpace s = true -> trimEnd s = [].
Proof.
  induction s as [|u s IH]; simpl; [done|].
  intros [Hu Hs]%andb_true_iff. by rewrite IH, Hu.
Qed.

Lemma trimEnd_app_space s ws : allSpace ws = true -> trimEnd (s ++ ws) = trimEnd s.
Proof.
  intros Hws. induction s as [|u s IH]; simpl; [by apply trimEnd_allSpace|].
  by rewrite IH.
Qed.

(** White space around a string does not survive [trim]. *)
Lemma trim_padded ws s ws' :
  allSpace ws = true -> allSpace ws' = true -> trim (ws ++ s ++ ws') = trim s.
Proof.
  intros Hws Hws'. unfold trim.
  induction ws as [|u ws IH]; simpl.
  - induction s as [|u s IH].
    + simpl. by rewrite trimStart_allSpace.
    + rewrite <- app_comm_cons. cbn [trimStart].
      destruct (isWhiteSpace u); [done|].
      by rewrite app_comm_cons, trimEnd_app_space.
  - apply andb_true_iff in Hws as [-> Hws]. auto.
Qed.

(** The engine lowers the empty string, and only it, to the empty
    string. *)
Lemma toLowerCase_nonEmpty s : nonEmpty (toLowerCase s) = nonEmpty s.
Proof.
  pose proof (toLowerCase_empty s) as [Hl Hr].
  destruct s as [|u s].
  - by rewrite Hr.
  - destruct (toLowerCase (u :: s)); [by specialize (Hl eq_refl) | done].
Qed.

Lemma toLowerCase_nil : toLowerCase [] = [].
Proof. by apply toLowerCase_empty. Qed.

Lemma trim_nil : trim [] = [].
Proof. reflexivity. Qed.

Lemma nameHasSim_nonEmpty name : nameHasSim name = true -> nonEmpty name = true.
Proof.
  destruct name as [|u name]; [|done].
  unfold nameHasSim. by rewrite toLowerCase_nil.
Qed.

(** ** Cache keys *)

(** The key of a request with a device id never collides with a query key. *)
Lemma lookupKey_deviceId query deviceId :
  truthy deviceId = true ->
  lookupKey query deviceId = js "id:" ++ default [] deviceId.
Proof. intros H. unfold lookupKey, normalizeCacheKey. by rewrite H. Qed.

Lemma lookupKey_query query deviceId :
  truthy deviceId = false ->
  lookupKey query deviceId =
  js "q:" ++ toLowerCase (trim (default [] (if truthy query then trim <$> query else None))).
Proof. intros H. unfold lookupKey, normalizeCacheKey. by rewrite H. Qed.

(** The key of a request that passes validation is never the bare "q:",
    which is the key every invalid request would have. *)
Lemma lookupKey_valid query deviceId :
  valid (CheckEsim query deviceId) = true -> lookupKey query deviceId <> js "q:".
Proof.
  unfold valid, blank. intros Hv.
  destruct (truthy deviceId) eqn:Hd.
  - rewrite lookupKey_deviceId by done. intros Heq. by vm_compute in Heq.
  - rewrite lookupKey_query by done.
    rewrite andb_true_r in Hv. apply negb_true_iff, orb_false_iff in Hv as [Hq Ht].
    apply negb_false_iff in Hq, Ht. rewrite Hq.
    destruct query as [q|]; [|done]. simpl in *.
    rewrite trim_idem.
    intros Heq.
    assert (toLowerCase (trim q) = []) as Hl
      by (apply (app_inv_head (js "q:")); by rewrite app_nil_r).
    pose proof (toLowerCase_nonEmpty (trim q)) as Hn.
    rewrite Hl, Ht in Hn. done.
Qed.

Lemma lookupKey_invalid query deviceId :
  valid (CheckEsim query deviceId) = false -> lookupKey query deviceId = js "q:".
Proof.
  unfold valid, blank. intros Hv.
  apply negb_false_iff, andb_true_iff in Hv as [Hq Hd].
  apply negb_true_iff in Hd. rewrite lookupKey_query by done.
  assert (Hbare : js "q:" ++ toLowerCase (trim []) = js "q:")
    by by rewrite trim_nil, toLowerCase_nil, app_nil_r.
  destruct query as [q|]; [|done]. simpl in *.
  destruct (nonEmpty q) eqn:Hn; simpl in *; [|done].
  apply negb_true_iff in Hq.
  rewrite trim_idem.
  destruct (trim q); [done | discriminate].
Qed.

(** ** The specification scan *)

(** One iteration of the inner loop overwrites [simText] exactly on a
    usable entry. *)
Lemma scanEntry_usable simText e :
  scanEntry simText (Some e) = if usable e then Some (textOf e) else simText.
Proof.
  destruct e as [[name|] [v|]]; unfold usable, simNamed, textOf; simpl;
    try done.
  - destruct (nameHasSim name) eqn:Hsim; simpl.
    + rewrite (nameHasSim_nonEmpty _ Hsim). simpl.
      by destruct v as [[|c s]|items].
    + by destruct (negb (nonEmpty name) || negb _).
  - by destruct (nameHasSim name).
Qed.

Lemma foldl_scanEntry specs simText :
  foldl scanEntry simText specs =
  match last (List.filter usable (omap id specs)) with
  | Some e => Some (textOf e)
  | None => simText
  end.
Proof.
  induction specs as [|spec specs IH] using rev_ind; [done|].
  rewrite foldl_snoc, IH, omap_app, List.filter_app, last_app.
  destruct spec as [e|]; [|done].
  rewrite scanEntry_usable. simpl. by destruct (usable e).
Qed.

Lemma scanSection_entries section simText :
  scanSection simText section =
  match last (List.filter usable (sectionEntries section)) with
  | Some e => Some (textOf e)
  | None => simText
  end.
Proof.
  destruct section as [[[specs|]]|]; simpl; [|done..].
  apply foldl_scanEntry.
Qed.

Lemma foldl_scanSection sections simText :
  foldl scanSection simText sections =
  match last (List.filter usable (concat (sectionEntries <$> sections))) with
  | Some e => Some (textOf e)
  | None => simText
  end.
Proof.
  induction sections as [|section sections IH] using rev_ind; [done|].
  rewrite foldl_snoc, IH, fmap_app, concat_app, List.filter_app, last_app.
  simpl. rewrite app_nil_r, scanSection_entries.
  by destruct (last (List.filter usable (sectionEntries section))).
Qed.

(** The scan ends with the text of the last usable entry in scan order. *)
Lemma scanSim_last device :
  scanSim device = textOf <$> last (List.filter usable (entries device)).
Proof.
  unfold scanSim, entries. destruct (detailSpec device) as [sections|]; [|done].
  rewrite foldl_scanSection.
  by destruct (last _).
Qed.

(** The payload reports the scan's text, [null] when it is empty. *)
Lemma answerPayload_simRaw device firstResult query selectedId :
  simRaw (answerPayload device firstResult query selectedId)
  = reported (scanSim device).
Proof.
  unfold answerPayload, reported.
  destruct (scanSim device) as [t|]; [|done]. by destruct (nonEmpty t).
Qed.

Lemma answerPayload_supportsEsim device firstResult query selectedId :
  supportsEsim (answerPayload device firstResult query selectedId)
  = (fun t => includes (toLowerCase t) (js "esim")) <$> reported (scanSim device).
Proof.
  unfold answerPayload, reported.
  destruct (scanSim device) as [t|]; [|done]. by destruct (nonEmpty t).
Qed.

Lemma answerPayload_found device firstResult query selectedId :
  found (answerPayload device firstResult query selectedId) = true.
Proof.
  unfold answerPayload.
  destruct (scanSim device) as [t|]; [|done]. by destruct (nonEmpty t).
Qed.

(** Without a usable entry whose text is non-empty the handler builds the
    "no SIM details" payload. *)
Lemma answerPayload_no_details device firstResult query selectedId :
  reported (scanSim device) = None ->
  answerPayload device firstResult query selectedId =
  Found (orElse (orElse (dev_name device) (firstResult ≫= sr_name)) query)
        selectedId None None MsgNoSimDetails.
Proof.
  unfold answerPayload, reported.
  destruct (scanSim device) as [t|]; [|done]. by destruct (nonEmpty t).
Qed.

(** ** Walking the paths of a handler *)

(** Case on the condition or scrutinee that blocks the evaluation. *)
Ltac branch :=
  match goal with
  | |- context [if ?c then _ else _] => destruct c eqn:?
  | |- context [match ?x with _ => _ end] => destruct x eqn:?
  end.

(** The two errors that the server itself throws, under the test of the
    catch blocks. *)
Lemma blocked_is_signal : isRateLimitSignal upstreamBlockedError = true.
Proof. reflexivity. Qed.

Lemma typeError_no_signal : isRateLimitSignal typeError = false.
Proof. reflexivity. Qed.

(** Evaluate a run along every path of the handler. *)
Ltac walk :=
  cbn;
  repeat (first [ rewrite blocked_is_signal
                | rewrite typeError_no_signal
                | branch ];
          cbn).

(** Close a path: resolve which call a trace holds and what the
    environment answered it. *)
Ltac leaf :=
  intros; simpl in *;
  repeat match goal with
  | H : _ ∈ [] |- _ => by apply elem_of_nil in H
  | H : _ ∈ _ :: _ |- _ => apply elem_of_cons in H as [->|H]
  end;
  unfold rejection, deviceFor, resultsFor in *;
  repeat match goal with
  | H : reply ?e _ ?c = _, H' : context [reply ?e _ ?c] |- _ => rewrite H in H'
  end;
  simplify_eq; try done; try congruence.

(** Walk a program's tree rather than one of its runs. *)
Ltac paths :=
  repeat (first [ progress cbn
                | rewrite blocked_is_signal
                | rewrite typeError_no_signal
                | split | intro | branch | done ]).

(** ** The cache never holds the bare key *)

Lemma cacheWrites_tryCatch {A : Type} (P : jsstring -> Prop) (p : prog A) h :
  cacheWrites P p -> (forall err, cacheWrites P (h err)) ->
  cacheWrites P (tryCatch p h).
Proof.
  intros Hp Hh. induction p as [a|err|X e k IH]; simpl in *; auto.
  destruct Hp as [He Hk]. split; [done|]. intros x. apply IH, Hk.
Qed.

Lemma handler_cacheWrites req : cacheWrites properKey (handler req).
Proof.
  destruct req as [q|q d]; simpl.
  - unfold searchDevices. apply cacheWrites_tryCatch; paths.
  - unfold checkEsim. apply cacheWrites_tryCatch; [|paths].
    destruct (blank q && negb (truthy d)) eqn:Hv; [done|].
    assert (Hk : properKey (lookupKey q d)).
    { apply lookupKey_valid. unfold valid. by rewrite Hv. }
    unfold lookupKey in Hk. paths.
Qed.

(** A segment keeps the bare key out of the cache, and so does whatever
    it leaves suspended. *)
Lemma exec_cacheWrites {A : Type} clk (p : prog A) st n :
  cacheWrites properKey p -> cache st !! js "q:" = None ->
  cache (exec clk p st n).1.2 !! js "q:" = None /\
  match (exec clk p st n).1.1 with
  | Suspended c k => forall o, cacheWrites properKey (k o)
  | _ => True
  end.
Proof.
  revert st n.
  induction p as [a|err|X e k IH]; intros st n Hp Hst; simpl in *; auto.
  destruct Hp as [He Hk].
  destruct e; simpl; try (apply IH; [apply Hk | done]).
  - apply IH; [apply Hk|]. simpl. by rewrite lookup_insert_ne.
  - split; [done|]. intros o. apply Hk.
Qed.

Lemma segment_keysProper clk p s rest :
  cacheWrites properKey p -> keysProper s ->
  Forall (fun t => forall o, cacheWrites properKey (task_rest t o)) rest ->
  keysProper (segment clk p s rest).
Proof.
  intros Hp [Hc _] Hrest. unfold segment.
  destruct (exec_cacheWrites clk p (srv s) 0 Hp Hc) as [Hc' Hk].
  destruct (exec clk p (srv s) 0) as [[h st] n]. simpl in *.
  destruct h; split; simpl; try done.
  apply Forall_app. split; [done|]. by apply Forall_singleton.
Qed.

Lemma step_keysProper s ev : keysProper s -> keysProper (step s ev).
Proof.
  intros Hs. destruct ev as [req clk|i a clk]; simpl.
  - apply segment_keysProper; [apply handler_cacheWrites | done | apply Hs].
  - destruct (pending s !! i) as [t|] eqn:Hi; [|done].
    destruct (settle (task_call t) a) as [o|]; [|done].
    destruct Hs as [Hc Hp].
    apply segment_keysProper; [|done|].
    + eapply Forall_lookup_1 in Hp; [|done]. apply Hp.
    + by apply Forall_delete.
Qed.

Lemma play_keysProper evs : keysProper (play evs).
Proof.
  unfold play. induction evs as [|ev evs IH] using rev_ind.
  - split; [done | constructor].
  - rewrite foldl_snoc. by apply step_keysProper.
Qed.

Lemma reachable_no_bare_key st : reachable st -> cache st !! js "q:" = None.
Proof. intros [evs <-]. apply play_keysProper. Qed.

(** ** The throttle gate *)

Lemma upstreamBound_search st query :
  upstreamBound st (SearchDevices query) = true -> blank query = false.
Proof. unfold upstreamBound, valid. rewrite andb_true_r. apply negb_true_iff. Qed.

Lemma upstreamBound_check st query deviceId :
  upstreamBound st (CheckEsim query deviceId) = true ->
  blank query && negb (truthy deviceId) = false
  /\ cache st !! normalizeCacheKey (if truthy query then trim <$> query else None) deviceId
     = None.
Proof.
  unfold upstreamBound, valid, lookupKey. intros [Hv Hc]%andb_true_iff.
  apply negb_true_iff in Hv. split; [done|]. by destruct (cache st !! _).
Qed.

(** Run an upstream-bound request up to the gate. *)
Ltac to_gate H :=
  match type of H with
  | upstreamBound _ (SearchDevices _) = true =>
      let Hb := fresh "Hblank" in
      pose proof (upstreamBound_search _ _ H) as Hb;
      unfold run, handler, searchDevices; rewrite Hb; cbn
  | upstreamBound _ (CheckEsim _ _) = true =>
      let Hb := fresh "Hblank" in
      let Hc := fresh "Hmiss" in
      destruct (upstreamBound_check _ _ _ H) as [Hb Hc];
      unfold run, handler, checkEsim; rewrite Hb; cbn; rewrite Hc; cbn
  end.

Lemma gate_throttled st req e :
  upstreamBound st req = true -> now e - lastCallTs st < MIN_INTERVAL_MS ->
  run e (handler req) st = RunResult (Resolved throttled) st [] 1.
Proof.
  intros Hb Ht. apply Z.ltb_lt in Ht. unfold now in Ht.
  destruct req; to_gate Hb; by rewrite Ht.
Qed.

Lemma gate_blocked st req e :
  upstreamBound st req = true ->
  MIN_INTERVAL_MS <= now e - lastCallTs st -> now e < remoteBlockedUntil st ->
  exists msg,
    run e (handler req) st
    = RunResult (Resolved (Response 429 (ErrorBody msg (Some UPSTREAM_BLOCKED) None)))
                st [] 1.
Proof.
  intros Hb Ht Hu. apply Z.ltb_ge in Ht. apply Z.ltb_lt in Hu. unfold now in *.
  destruct req; to_gate Hb; rewrite Ht; cbn; rewrite Hu; cbn; eauto.
Qed.

Lemma passesGate_inv st req t :
  passesGate st req t = true ->
  upstreamBound st req = true
  /\ (t - lastCallTs st <? MIN_INTERVAL_MS) = false
  /\ (t <? remoteBlockedUntil st) = false.
Proof.
  unfold passesGate. intros [[H1 H2]%andb_true_iff H3]%andb_true_iff.
  by apply negb_true_iff in H2, H3.
Qed.

(** Run a request that the gate lets through past the gate. *)
Ltac pass_gate H :=
  let Hb := fresh "Hbound" in
  let Ht := fresh "Hlate" in
  let Hu := fresh "Hopen" in
  destruct (passesGate_inv _ _ _ H) as (Hb & Ht & Hu); unfold now in Ht, Hu;
  to_gate Hb; rewrite Ht; cbn; rewrite Hu; cbn.

(** The reservation: a request let through leaves [lastCallTs] at its own
    time, whatever happens upstream afterwards. *)
Lemma gate_records st req e :
  passesGate st req (now e) = true ->
  lastCallTs (final (run e (handler req) st)) = now e.
Proof. intros Ha. destruct req; pass_gate Ha; paths. Qed.

(** A request let through reaches the provider, if the clock does not run
    backwards between the gate and the client's own check. *)
Lemma gate_opens st req e :
  passesGate st req (now e) = true -> clock e 0 <= clock e 1 ->
  head (calls (run e (handler req) st)) = Some (firstCall req).
Proof.
  intros Ha Hmono. pose proof Ha as (_ & _ & Hu)%passesGate_inv.
  unfold now in Hu. apply Z.ltb_ge in Hu.
  assert (Hsafe : (clock e 1 <? remoteBlockedUntil st) = false)
    by (apply Z.ltb_ge; lia).
  destruct req; pass_gate Ha; try rewrite Hsafe; cbn.
  - paths.
  - destruct (truthy deviceId) eqn:Hd; cbn.
    + paths.
    + rewrite Hsafe. paths.
Qed.

(** A call rejected with a rate-limit signal ends in the catch block's
    429 and arms the cooldown from the clock reading taken there. *)
Lemma rate_limit_arms st req e :
  forall c err,
    c ∈ calls (run e (handler req) st) -> rejection e c = Some err ->
    isRateLimitSignal err = true ->
    settled (run e (handler req) st) = Resolved rateLimited
    /\ remoteBlockedUntil (final (run e (handler req) st))
       = clock e (pred (reads (run e (handler req) st))) + 30000.
Proof.
  destruct req as [q|q d];
    unfold run, handler, searchDevices, checkEsim, answerDevice; walk; leaf.
Qed.

(** When a run of /api/check-esim fetched a device, it answers with the
    payload built from that device and caches it under the LookupKey. *)
Lemma checkEsim_fetched st query deviceId e :
  forall c device,
    c ∈ calls (run e (checkEsim query deviceId) st) ->
    deviceFor e c = Some device ->
    exists firstResult selectedId,
      let payload := answerPayload device firstResult query selectedId in
      settled (run e (checkEsim query deviceId) st)
      = Resolved (Response 200 (PayloadBody payload false))
      /\ cache (final (run e (checkEsim query deviceId) st)) !! lookupKey query deviceId
         = Some payload.
Proof.
  unfold run, checkEsim, answerDevice, lookupKey.
  walk; leaf; eexists _, _; (split; [reflexivity|]); cbn; apply lookup_insert_eq.
Qed.

(** ** Runs and the event loop *)

Lemma run_from_calls {A : Type} e (p : prog A) st n tr :
  exists more, calls (run_from e p st n tr) = tr ++ more.
Proof.
  revert st n tr. induction p as [a|err|X ev k IH]; intros st n tr; simpl.
  - exists []. by rewrite app_nil_r.
  - exists []. by rewrite app_nil_r.
  - destruct ev as [ | | t | | t | key | key v | Y c ]; try apply IH.
    destruct (IH (reply e _ c) st n (tr ++ [callOf c])) as [more Hmore].
    exists (callOf c :: more). by rewrite Hmore, <- app_assoc.
Qed.

(** A run that issues no upstream call is a single segment. *)
Lemma quiet_run_exec {A : Type} e (p : prog A) st n tr :
  calls (run_from e p st n tr) = tr ->
  exec (clock e) p st n
  = (haltOf (settled (run_from e p st n tr)),
     final (run_from e p st n tr), reads (run_from e p st n tr)).
Proof.
  revert st n.
  induction p as [a|err|X ev k IH]; intros st n Hq; simpl in *; [done..|].
  destruct ev as [ | | t | | t | key | key v | Y c ]; try (by apply IH).
  destruct (run_from_calls e (k (reply e _ c)) st n (tr ++ [callOf c]))
    as [more Hmore].
  rewrite Hmore, <- app_assoc in Hq.
  apply (f_equal length) in Hq. rewrite length_app in Hq. simpl in Hq. lia.
Qed.

(** In the event loop such a request is answered on arrival, whatever
    else is pending. *)
Lemma quiet_arrival s req e r st' n :
  run e (handler req) (srv s) = RunResult (Resolved r) st' [] n ->
  step s (Arrive req (clock e))
  = {| srv := st'; pending := pending s; sent := sent s ++ [r]; wire := wire s |}.
Proof.
  intros Hrun. unfold run in Hrun. simpl. unfold segment.
  rewrite (quiet_run_exec e (handler req) (srv s) 0 []); by rewrite Hrun.
Qed.

(** The reservation is made in the segment of the arrival, before the
    handler is first suspended. *)
Lemma arrival_records s req clk :
  passesGate (srv s) req (clk 0%nat) = true ->
  lastCallTs (srv (step s (Arrive req clk))) = clk 0%nat.
Proof.
  intros Ha. destruct (passesGate_inv _ _ _ Ha) as (Hb & Ht & Hu).
  simpl. unfold segment. destruct req as [q|q d].
  - pose proof (upstreamBound_search _ _ Hb) as Hblank.
    unfold handler, searchDevices. rewrite Hblank. cbn.
    rewrite Ht. cbn. rewrite Hu. cbn. walk; done.
  - destruct (upstreamBound_check _ _ _ Hb) as [Hblank Hmiss].
    unfold handler, checkEsim. rewrite Hblank. cbn. rewrite Hmiss. cbn.
    rewrite Ht. cbn. rewrite Hu. cbn. walk; done.
Qed.

(** ** The local throttle *)

(** C1.  (1) Take two requests handled one after the other, the first
    let through by the gate, which records its current time as
    [lastCallTs]: if the second is upstream-bound (to either endpoint) and
    its current time is less than 5000 ms after that of the first, it is
    answered 429 with code LOCAL_THROTTLE, makes no upstream call and
    leaves the state as it was.  (2) More generally this holds in any
    state for a request less than 5000 ms after the recorded
    [lastCallTs].  (3, 4) The same in the event loop, whatever handlers
    are suspended: the reservation is made on arrival, and a request
    inside the window is answered on arrival with nothing put on the
    wire. *)
Theorem local_throttle_window :
  (forall st0 first e1 second e2,
      let st1 := final (run e1 (handler first) st0) in
      passesGate st0 first (now e1) = true ->
      upstreamBound st1 second = true ->
      now e2 - now e1 < MIN_INTERVAL_MS ->
      lastCallTs st1 = now e1
      /\ run e2 (handler second) st1 = RunResult (Resolved throttled) st1 [] 1)
  /\ (forall st req e,
      upstreamBound st req = true ->
      now e - lastCallTs st < MIN_INTERVAL_MS ->
      run e (handler req) st = RunResult (Resolved throttled) st [] 1)
  /\ (forall s req clk,
      passesGate (srv s) req (clk 0%nat) = true ->
      lastCallTs (srv (step s (Arrive req clk))) = clk 0%nat)
  /\ (forall s req clk,
      upstreamBound (srv s) req = true ->
      clk 0%nat - lastCallTs (srv s) < MIN_INTERVAL_MS ->
      step s (Arrive req clk) = answered s throttled).
Proof.
  split; [|split; [|split]].
  - intros st0 first e1 second e2 st1 Hfirst Hsecond Hwindow.
    assert (Hrec : lastCallTs st1 = now e1) by by apply gate_records.
    split; [done|]. apply gate_throttled; [done|]. by rewrite Hrec.
  - apply gate_throttled.
  - apply arrival_records.
  - intros s req clk Hb Ht.
    apply (quiet_arrival s req (Env clk (fun X c => Rejected upstreamBlockedError))
             throttled (srv s) 1).
    by apply gate_throttled.
Qed.

(** ** The cooldown after an upstream rate limit *)

(** The client's own check fires only when the clock runs backwards after
    the gate; the error it throws is a rate-limit signal, so the catch
    block re-arms the cooldown from its own clock reading. *)
Lemma client_block_rearms st req e :
  passesGate st req (now e) = true ->
  (exists q, firstCall req = CallSearch q) ->
  clock e 1 < remoteBlockedUntil st ->
  run e (handler req) st
  = RunResult (Resolved rateLimited)
              (setRemoteBlockedUntil (clock e 2 + 30000) (setLastCallTs (now e) st))
              [] 3.
Proof.
  intros Ha [q Hq] Hback. apply Z.ltb_lt in Hback.
  destruct req as [query|query deviceId]; pass_gate Ha.
  - by rewrite Hback.
  - simpl in Hq. destruct (truthy deviceId); [done|]. cbn. by rewrite Hback.
Qed.

(** C2, amended.  (1) When an upstream call of a run is rejected with a
    rate-limit signal (HTTP status 429, or the code UPSTREAM_BLOCKED), the
    handler answers 429 with code 429 and sets [remoteBlockedUntil] to the
    clock reading of its catch block plus 30000; (2) the same happens when
    safeSearchDevices throws its own blocked error.  (3) A later
    upstream-bound request whose current time is strictly before
    [remoteBlockedUntil] is rejected with 429 and makes no upstream call:
    with code UPSTREAM_BLOCKED when it comes at least 5000 ms after
    [lastCallTs], with code LOCAL_THROTTLE when it comes sooner.  (4) Once
    the current time reaches [remoteBlockedUntil], and absent the local
    throttle, the request is let through again: it records [lastCallTs]
    and issues its first upstream call. *)
Theorem cooldown_window :
  (forall st req e c err,
      c ∈ calls (run e (handler req) st) -> rejection e c = Some err ->
      isRateLimitSignal err = true ->
      settled (run e (handler req) st) = Resolved rateLimited
      /\ remoteBlockedUntil (final (run e (handler req) st))
         = clock e (pred (reads (run e (handler req) st))) + 30000)
  /\ (forall st req e,
      passesGate st req (now e) = true ->
      (exists q, firstCall req = CallSearch q) ->
      clock e 1 < remoteBlockedUntil st ->
      settled (run e (handler req) st) = Resolved rateLimited
      /\ remoteBlockedUntil (final (run e (handler req) st)) = clock e 2 + 30000
      /\ calls (run e (handler req) st) = [])
  /\ (forall st req e,
      upstreamBound st req = true -> now e < remoteBlockedUntil st ->
      (MIN_INTERVAL_MS <= now e - lastCallTs st ->
       exists msg,
         run e (handler req) st
         = RunResult (Resolved (Response 429 (ErrorBody msg (Some UPSTREAM_BLOCKED) None)))
                     st [] 1)
      /\ (now e - lastCallTs st < MIN_INTERVAL_MS ->
          run e (handler req) st = RunResult (Resolved throttled) st [] 1))
  /\ (forall st req e,
      upstreamBound st req = true -> remoteBlockedUntil st <= now e ->
      MIN_INTERVAL_MS <= now e - lastCallTs st -> clock e 0 <= clock e 1 ->
      head (calls (run e (handler req) st)) = Some (firstCall req)
      /\ lastCallTs (final (run e (handler req) st)) = now e).
Proof.
  split; [|split; [|split]].
  - intros st req e. apply rate_limit_arms.
  - intros st req e Ha Hq Hback.
    by rewrite (client_block_rearms st req e Ha Hq Hback).
  - intros st req e Hb Hu. split.
    + intros Ht. by apply gate_blocked.
    + intros Ht. by apply gate_throttled.
  - intros st req e Hb Hu Ht Hmono.
    assert (Ha : passesGate st req (now e) = true).
    { unfold passesGate. rewrite Hb. simpl.
      apply andb_true_iff. split; apply negb_true_iff, Z.ltb_ge; lia. }
    split; [by apply gate_opens | by apply gate_records].
Qed.

(** ** The response cache *)

(** C3.  In every state the server can reach, a /api/check-esim request
    whose LookupKey is in the cache is answered 200 with the stored
    payload and [fromCache: true].  The run reads no clock, so it makes no
    throttle check, it issues no upstream call and it leaves the state as
    it was; nothing is assumed about [lastCallTs] or [remoteBlockedUntil].
    In the event loop the request is answered on arrival and nothing is
    put on the wire.  The stored payload is arbitrary, so this covers a
    cached [found: false]. *)
Theorem cache_hit_short_circuits (st : state) (query deviceId : option jsstring)
    (stored : payload) :
  reachable st ->
  cache st !! lookupKey query deviceId = Some stored ->
  (forall e,
      run e (checkEsim query deviceId) st
      = RunResult (Resolved (Response 200 (PayloadBody stored true))) st [] 0)
  /\ (forall s clk,
      srv s = st ->
      step s (Arrive (CheckEsim query deviceId) clk)
      = answered s (Response 200 (PayloadBody stored true))).
Proof.
  intros Hr Hc.
  assert (Hv : valid (CheckEsim query deviceId) = true).
  { destruct (valid (CheckEsim query deviceId)) eqn:Hv; [done|].
    rewrite (lookupKey_invalid _ _ Hv), (reachable_no_bare_key _ Hr) in Hc. done. }
  unfold valid in Hv. apply negb_true_iff in Hv. unfold lookupKey in Hc.
  assert (Hrun : forall e,
             run e (checkEsim query deviceId) st
             = RunResult (Resolved (Response 200 (PayloadBody stored true))) st [] 0).
  { intros e. unfold run, checkEsim. rewrite Hv. cbn. by rewrite Hc. }
  split; [done|]. intros s clk <-.
  apply (quiet_arrival s (CheckEsim query deviceId)
           (Env clk (fun X c => Rejected upstreamBlockedError)) _ (srv s) 0).
  apply Hrun.
Qed.

(** ** The specification scan: which entry wins *)

(** C4, amended.  The scan has no early exit: [simText] ends as the text
    of the last entry in scan order (sections in order, entries in order
    within each section) among the sim-named entries whose value is
    present and truthy, whatever precedes it, and [simRaw] is that text,
    or [null] when it is empty. *)
Theorem last_usable_entry_wins (device : deviceDetail)
    (firstResult : option searchResult) (query : option jsstring) (selectedId : jsstring) :
  scanSim device = textOf <$> last (List.filter usable (entries device))
  /\ simRaw (answerPayload device firstResult query selectedId)
     = reported (textOf <$> last (List.filter usable (entries device)))
  /\ (forall before e after,
        entries device = before ++ e :: after ->
        usable e = true -> List.filter usable after = [] ->
        scanSim device = Some (textOf e)).
Proof.
  split; [apply scanSim_last|]. split.
  - by rewrite answerPayload_simRaw, scanSim_last.
  - intros before e after Hsplit He Hafter.
    rewrite scanSim_last, Hsplit, List.filter_app. simpl.
    rewrite He, Hafter, last_snoc. done.
Qed.

(** C5, amended.  When the last sim-named entry with a present, truthy
    value has a non-empty text - its elements joined with " | " for an
    array, the string itself otherwise - [simRaw] is that text and
    [supportsEsim] is [true] exactly when the text lowercased contains
    "esim", [false] otherwise. *)
Theorem sim_text_and_verdict (device : deviceDetail)
    (firstResult : option searchResult) (query : option jsstring) (selectedId : jsstring)
    (e : specEntry) (v : specValue) :
  last (List.filter usable (entries device)) = Some e ->
  spec_value e = Some v ->
  nonEmpty (captured v) = true ->
  let text := match v with
              | VArray items => join (js " | ") items
              | VString s => s
              end in
  simRaw (answerPayload device firstResult query selectedId) = Some text
  /\ supportsEsim (answerPayload device firstResult query selectedId)
     = Some (includes (toLowerCase text) (js "esim")).
Proof.
  intros Hlast Hv Hne text.
  assert (Hscan : reported (scanSim device) = Some text).
  { rewrite scanSim_last, Hlast. simpl. unfold textOf. rewrite Hv.
    fold text. unfold reported. fold (captured v). by rewrite Hne. }
  by rewrite answerPayload_simRaw, answerPayload_supportsEsim, Hscan.
Qed.

(** ** Devices without SIM details *)

Lemma usable_simNamed e : usable e = true -> simNamed e = true.
Proof. unfold usable. by intros [? _]%andb_true_iff. Qed.

(** A usable entry has a value, and its text is what the scan captures. *)
Lemma last_usable_elem device e :
  last (List.filter usable (entries device)) = Some e ->
  e ∈ entries device /\ usable e = true.
Proof.
  intros Hlast%last_Some_elem_of%list_elem_of_In%filter_In.
  by rewrite list_elem_of_In.
Qed.

Lemma no_sim_entry_scan device :
  (forall x, x ∈ entries device -> simNamed x = false) -> scanSim device = None.
Proof.
  intros Hnone. rewrite scanSim_last.
  destruct (last (List.filter usable (entries device))) as [e|] eqn:Hlast; [|done].
  apply last_usable_elem in Hlast as [Hin Hu].
  apply usable_simNamed in Hu. by rewrite (Hnone e Hin) in Hu.
Qed.

Lemma empty_sim_text_scan device :
  (forall x, x ∈ entries device -> simNamed x = true -> textOf x = []) ->
  reported (scanSim device) = None.
Proof.
  intros Hempty. rewrite scanSim_last.
  destruct (last (List.filter usable (entries device))) as [e|] eqn:Hlast; [|done].
  apply last_usable_elem in Hlast as [Hin Hu].
  apply usable_simNamed in Hu. simpl. by rewrite (Hempty e Hin Hu).
Qed.

(** C6.  When /api/check-esim fetched a device none of whose
    specification entries has a name containing "sim", it answers 200 with
    a payload that has [found: true], [simRaw: null] and
    [supportsEsim: null], and caches that payload under the LookupKey. *)
Theorem no_sim_entry_undetermined (st : state) (query deviceId : option jsstring)
    (e : env) (c : call) (device : deviceDetail) :
  c ∈ calls (run e (checkEsim query deviceId) st) ->
  deviceFor e c = Some device ->
  (forall x, x ∈ entries device -> simNamed x = false) ->
  exists p,
    settled (run e (checkEsim query deviceId) st)
    = Resolved (Response 200 (PayloadBody p false))
    /\ found p = true /\ simRaw p = None /\ supportsEsim p = None
    /\ supportsEsim p <> Some false
    /\ cache (final (run e (checkEsim query deviceId) st)) !! lookupKey query deviceId
       = Some p.
Proof.
  intros Hc Hd Hnone.
  destruct (checkEsim_fetched st query deviceId e c device Hc Hd)
    as (firstResult & selectedId & Hresp & Hcache).
  exists (answerPayload device firstResult query selectedId).
  rewrite answerPayload_no_details in *
    by (by rewrite no_sim_entry_scan).
  done.
Qed.

(** C10.  The scan skips an entry whose value is absent or falsy, even
    when its name contains "sim": the running [simText] is left as it was.
    Consequently, when every sim-named entry of the fetched device has an
    empty text, /api/check-esim takes the no-SIM-data branch: the payload
    has [simRaw: null] and [supportsEsim: null], not an empty [simRaw]
    with [supportsEsim: false]. *)
Theorem falsy_value_skipped :
  (forall simText (spec : specEntry),
      valueTruthy (spec_value spec) = false ->
      scanEntry simText (Some spec) = simText)
  /\ (forall st query deviceId e c device,
      c ∈ calls (run e (checkEsim query deviceId) st) ->
      deviceFor e c = Some device ->
      (forall x, x ∈ entries device -> simNamed x = true -> textOf x = []) ->
      exists name selectedId,
        settled (run e (checkEsim query deviceId) st)
        = Resolved (Response 200
            (PayloadBody (Found name selectedId None None MsgNoSimDetails) false))).
Proof.
  split.
  - intros simText spec Hv. rewrite scanEntry_usable. unfold usable.
    by rewrite Hv, andb_false_r.
  - intros st query deviceId e c device Hc Hd Hempty.
    destruct (checkEsim_fetched st query deviceId e c device Hc Hd)
      as (firstResult & selectedId & Hresp & _).
    rewrite answerPayload_no_details in Hresp
      by (by apply empty_sim_text_scan).
    eauto.
Qed.

(** ** Devices that are not found *)

Lemma search_miss st query deviceId e :
  passesGate st (CheckEsim query deviceId) (now e) = true ->
  truthy deviceId = false -> clock e 0 <= clock e 1 ->
  resultsFor e (firstCall (CheckEsim query deviceId)) = Some [] ->
  run e (checkEsim query deviceId) st
  = RunResult (Resolved (Response 200 (PayloadBody (NotFound MsgNoDevice) false)))
      (cacheSet (lookupKey query deviceId) (NotFound MsgNoDevice)
                (setLastCallTs (now e) st))
      [firstCall (CheckEsim query deviceId)] 2.
Proof.
  intros Ha Hd Hmono Hres.
  pose proof Ha as (_ & _ & Hu)%passesGate_inv. unfold now in Hu.
  apply Z.ltb_ge in Hu.
  assert (Hsafe : (clock e 1 <? remoteBlockedUntil st) = false)
    by (apply Z.ltb_ge; lia).
  simpl in Hres. rewrite Hd in Hres.
  pass_gate Ha. rewrite Hd. cbn. rewrite Hsafe. cbn.
  unfold resultsFor in Hres.
  destruct (reply e _ _) as [raw|err]; [|done].
  injection Hres as Hres. cbn. rewrite Hres. cbn. unfold lookupKey, now. done.
Qed.

Lemma answerPayload_not_NotFound device firstResult query selectedId msg :
  answerPayload device firstResult query selectedId <> NotFound msg.
Proof. intros H%(f_equal found). by rewrite answerPayload_found in H. Qed.

Lemma deviceId_skips_search st query deviceId e :
  passesGate st (CheckEsim query deviceId) (now e) = true ->
  truthy deviceId = true ->
  calls (run e (checkEsim query deviceId) st)
  = [CallGetDevice (default [] deviceId)]
  /\ (forall resp msg fromCache,
        settled (run e (checkEsim query deviceId) st) = Resolved resp ->
        json resp <> PayloadBody (NotFound msg) fromCache)
  /\ (forall msg,
        cache (final (run e (checkEsim query deviceId) st)) !! lookupKey query deviceId
        <> Some (NotFound msg)).
Proof.
  intros Ha Hd. unfold lookupKey.
  pass_gate Ha. rewrite Hd. cbn. unfold answerDevice.
  walk; (split; [done|]); split; intros; simplify_eq; simpl;
    rewrite ?lookup_insert_eq; try congruence;
    intros [=]; by eapply answerPayload_not_NotFound.
Qed.

(** C7, amended.  A /api/check-esim request without a device id that
    passes validation and the throttle gate, and whose search yields no
    result, is answered 200 with [found: false], and that payload is
    stored in the cache under the request's LookupKey.  A request with a
    device id runs no search: its only upstream call fetches the device
    by that id, it is never answered [found: false] and it caches no
    not-found payload. *)
Theorem not_found_after_empty_search :
  (forall st query deviceId e,
      passesGate st (CheckEsim query deviceId) (now e) = true ->
      truthy deviceId = false -> clock e 0 <= clock e 1 ->
      resultsFor e (firstCall (CheckEsim query deviceId)) = Some [] ->
      let r := run e (checkEsim query deviceId) st in
      settled r = Resolved (Response 200 (PayloadBody (NotFound MsgNoDevice) false))
      /\ found (NotFound MsgNoDevice) = false
      /\ cache (final r) !! lookupKey query deviceId = Some (NotFound MsgNoDevice)
      /\ calls r = [firstCall (CheckEsim query deviceId)])
  /\ (forall st query deviceId e,
      passesGate st (CheckEsim query deviceId) (now e) = true ->
      truthy deviceId = true ->
      let r := run e (checkEsim query deviceId) st in
      calls r = [CallGetDevice (default [] deviceId)]
      /\ (forall resp msg fromCache,
            settled r = Resolved resp ->
            json resp <> PayloadBody (NotFound msg) fromCache)
      /\ (forall msg, cache (final r) !! lookupKey query deviceId <> Some (NotFound msg))).
Proof.
  split.
  - intros st query deviceId e Ha Hd Hmono Hres r. subst r.
    rewrite (search_miss st query deviceId e Ha Hd Hmono Hres). simpl.
    by rewrite lookup_insert_eq.
  - intros st query deviceId e Ha Hd. by apply deviceId_skips_search.
Qed.

(** ** The upstream client *)

(** safeSearchDevices throws UPSTREAM_BLOCKED, without contacting the
    provider, when the clock reads before [remoteBlockedUntil]. *)
Lemma safeSearchDevices_guard clk query st n :
  clk n < remoteBlockedUntil st ->
  exec clk (safeSearchDevices query) st n = (Raised upstreamBlockedError, st, S n).
Proof. intros H%Z.ltb_lt. unfold safeSearchDevices. cbn. by rewrite H. Qed.

(** C8 fails for getDevice.  The search goes through safeSearchDevices,
    which makes the defensive check; the device fetch is a bare
    [gsmarena.catalog.getDevice] call: whatever the throttle state, the
    handler reads no clock and goes straight to the provider.  In the
    event loop this is observable: while a check by query waits for its
    search, a later search draws a 429 and arms the cooldown until 45100;
    when the first search resolves at 15200, the device fetch is issued
    inside the blocked window. *)
Theorem getDevice_unguarded :
  (forall clk query st n,
      clk n < remoteBlockedUntil st ->
      exec clk (safeSearchDevices query) st n = (Raised upstreamBlockedError, st, S n))
  /\ (forall clk key query id firstResult st n,
      match exec clk (answerDevice key query id firstResult) st n with
      | (Suspended c _, st', n') => callOf c = CallGetDevice id /\ st' = st /\ n' = n
      | _ => False
      end)
  /\ (exists i,
      wire (play Sample.race) !! 2%nat = Some i
      /\ issued_call i = CallGetDevice (js "google_pixel_8-12546")
      /\ issued_at i = 15200
      /\ issued_blockedUntil i = 45100
      /\ issued_at i < issued_blockedUntil i).
Proof.
  split; [apply safeSearchDevices_guard|]. split; [done|].
  eexists. split; [vm_compute; reflexivity|]. by vm_compute.
Qed.

(** ** The search endpoint *)

Lemma blank_iff query :
  blank query = true
  <-> query = None \/ exists s, query = Some s /\ allSpace s = true.
Proof.
  unfold blank. destruct query as [s|]; simpl; [|by split; [left|]].
  split.
  - intros H. right. exists s. split; [done|].
    apply trim_empty_iff.
    apply orb_true_iff in H as [H|H]; apply negb_true_iff in H; [|done].
    by destruct s.
  - intros [|(s' & [= <-] & H)]; [done|].
    apply trim_empty_iff in H. rewrite H. apply orb_true_r.
Qed.

Lemma publicResults_shape results :
  publicResults results = toHit <$> omap id (take 8 results).
Proof.
  unfold publicResults.
  induction (take 8 results) as [|[d|] l IH]; [done|..].
  - cbn. by f_equal.
  - done.
Qed.

Lemma publicResults_length results : (length (publicResults results) <= 8)%nat.
Proof.
  rewrite publicResults_shape, length_fmap.
  assert (H : forall l : list (option searchResult),
             (length (omap id l) <= length l)%nat).
  { induction l as [|[d|] l IH]; cbn in *; lia. }
  etrans; [apply H | apply firstn_le_length].
Qed.

Lemma searchDevices_ok st s e :
  forall resp,
    allSpace s = false ->
    settled (run e (searchDevices (Some s)) st) = Resolved resp ->
    status resp = 200 ->
    exists hits,
      resultsFor e (CallSearch (Some (trim s))) = Some hits
      /\ calls (run e (searchDevices (Some s)) st) = [CallSearch (Some (trim s))]
      /\ json resp = ResultsBody (publicResults hits).
Proof.
  unfold run, searchDevices, resultsFor. walk; leaf.
  eexists. split; [reflexivity|]. done.
Qed.

(** The valid search that the gate lets through, run to its end. *)
Lemma searchDevices_found st s e raw :
  allSpace s = false ->
  MIN_INTERVAL_MS <= now e - lastCallTs st ->
  remoteBlockedUntil st <= now e ->
  clock e 0 <= clock e 1 ->
  reply e _ (search_search (Some (trim s))) = Resolved raw ->
  run e (searchDevices (Some s)) st
  = RunResult (Resolved (Response 200 (ResultsBody (publicResults (default [] raw)))))
              (setLastCallTs (now e) st) [CallSearch (Some (trim s))] 2.
Proof.
  intros Hs Hlate Hopen Hmono Hres. unfold now in *.
  assert (Hb : blank (Some s) = false).
  { destruct (blank (Some s)) eqn:Hb; [|done].
    apply blank_iff in Hb as [|(s' & [= <-] & Hs')]; congruence. }
  apply Z.ltb_ge in Hlate.
  assert (Hsafe : (clock e 1 <? remoteBlockedUntil st) = false)
    by (apply Z.ltb_ge; lia).
  apply Z.ltb_ge in Hopen.
  unfold run, searchDevices. rewrite Hb. cbn.
  rewrite Hlate. cbn. rewrite Hopen. cbn. rewrite Hsafe. cbn. by rewrite Hres.
Qed.

(** C9.  /api/search-devices answers 400 when the query is absent, empty
    or all white space (any white space that [trim] strips), without
    reading the clock or calling upstream.  A query that is not - a
    valid one - which the gate lets through, and whose search the
    provider resolves, is answered 200 after the one search call for the
    trimmed query, and the body's [results] are the first 8 items of the
    provider's list with the [null] items dropped, each mapped to
    [{id, name, image, brand}]: at most 8 items.  Conversely a 200
    answer to a valid query always carries the results so made from a
    list that the provider resolved for the trimmed query. *)
Theorem search_validation_and_results :
  (forall st query e,
      query = None \/ (exists s, query = Some s /\ allSpace s = true) ->
      run e (searchDevices query) st
      = RunResult (Resolved (Response 400 (ErrorBody MsgSearchNeedsQuery None None)))
                  st [] 0)
  /\ (forall st s e raw,
      allSpace s = false ->
      MIN_INTERVAL_MS <= now e - lastCallTs st ->
      remoteBlockedUntil st <= now e ->
      clock e 0 <= clock e 1 ->
      reply e _ (search_search (Some (trim s))) = Resolved raw ->
      let results := toHit <$> omap id (take 8 (default [] raw)) in
      settled (run e (searchDevices (Some s)) st)
      = Resolved (Response 200 (ResultsBody results))
      /\ calls (run e (searchDevices (Some s)) st) = [CallSearch (Some (trim s))]
      /\ (length results <= 8)%nat)
  /\ (forall st s e resp,
      allSpace s = false ->
      settled (run e (searchDevices (Some s)) st) = Resolved resp ->
      status resp = 200 ->
      exists hits results,
        resultsFor e (CallSearch (Some (trim s))) = Some hits
        /\ json resp = ResultsBody results
        /\ results = toHit <$> omap id (take 8 hits)
        /\ (length results <= 8)%nat).
Proof.
  split; [|split].
  - intros st query e Hq%blank_iff.
    unfold run, searchDevices. by rewrite Hq.
  - intros st s e raw Hs Hlate Hopen Hmono Hres results.
    rewrite (searchDevices_found st s e raw Hs Hlate Hopen Hmono Hres). simpl.
    subst results. rewrite <- publicResults_shape.
    split; [done|]. split; [done|]. apply publicResults_length.
  - intros st s e resp Hs Hresp Hok.
    destruct (searchDevices_ok st s e resp Hs Hresp Hok) as (hits & Hhits & _ & Hjson).
    exists hits, (publicResults hits).
    split; [done|]. split; [done|]. split.
    + apply publicResults_shape.
    + apply publicResults_length.
Qed.

(** ** Further properties: cache keys *)

(** The key of a request without a device id, in closed form. *)
Lemma lookupKey_of_query q :
  lookupKey (Some q) None = js "q:" ++ toLowerCase (trim q).
Proof.
  unfold lookupKey, normalizeCacheKey. simpl.
  destruct (nonEmpty q) eqn:Hq; simpl.
  - by rewrite trim_idem.
  - by destruct q.
Qed.

(** X1.  Two text queries share a cache entry exactly when their trimmed
    forms are lowered to the same string by the engine's [toLowerCase],
    whatever that case mapping is.  In particular a query and its trimmed
    form have the same LookupKey, although the handler trims twice, and
    so has the query with any white space that [trim] strips - no-break
    and ideographic spaces, line terminators and the like included -
    put before and after it. *)
Theorem query_key_normalized (q q' : jsstring) :
  (lookupKey (Some q) None = lookupKey (Some q') None
   <-> toLowerCase (trim q) = toLowerCase (trim q'))
  /\ lookupKey (Some (trim q)) None = lookupKey (Some q) None
  /\ (forall ws ws',
        allSpace ws = true -> allSpace ws' = true ->
        lookupKey (Some (ws ++ q ++ ws')) None = lookupKey (Some q) None).
Proof.
  rewrite !lookupKey_of_query. split; [|split].
  - split; [apply app_inv_head | by intros ->].
  - by rewrite trim_idem.
  - intros ws ws' Hws Hws'. by rewrite lookupKey_of_query, trim_padded.
Qed.

(** X2.  When a device id is given the key is made of the id alone: the
    query plays no part, two requests share the key only if they name the
    same device, and the key is not that of any request without one. *)
Theorem device_key_separate (q q' deviceId deviceId' : option jsstring) :
  truthy deviceId = true ->
  lookupKey q deviceId = lookupKey q' deviceId
  /\ (lookupKey q deviceId = lookupKey q' deviceId' ->
      truthy deviceId' = true /\ deviceId' = deviceId).
Proof.
  intros Hd. rewrite !(lookupKey_deviceId _ deviceId) by done. split; [done|].
  destruct (truthy deviceId') eqn:Hd'.
  - rewrite lookupKey_deviceId by done.
    intros Heq%app_inv_head. split; [done|].
    destruct deviceId, deviceId'; simplify_eq/=; done.
  - rewrite lookupKey_query by done. intros Heq. by vm_compute in Heq.
Qed.

(** ** Further properties: one request *)

(** A fresh 200 of /api/check-esim comes from a valid request and is in
    the cache afterwards. *)
Lemma fresh_answer_cached st query deviceId e :
  forall p,
    settled (run e (checkEsim query deviceId) st)
    = Resolved (Response 200 (PayloadBody p false)) ->
    valid (CheckEsim query deviceId) = true
    /\ cache (final (run e (checkEsim query deviceId) st)) !! lookupKey query deviceId
       = Some p.
Proof.
  unfold run, checkEsim, answerDevice, lookupKey, valid.
  walk; leaf; split; try done; apply lookup_insert_eq.
Qed.

(** X3.  Insert then look up: once /api/check-esim has answered 200 with a
    fresh payload, any later request with the same LookupKey (the same
    device id, or a query equal after trimming and lowercasing), handled
    in the state the first one left, is answered with that payload and
    [fromCache: true], with no clock read and no upstream call. *)
Theorem answer_served_again (st : state) (query deviceId query' deviceId' : option jsstring)
    (e e' : env) (p : payload) :
  settled (run e (checkEsim query deviceId) st)
  = Resolved (Response 200 (PayloadBody p false)) ->
  lookupKey query' deviceId' = lookupKey query deviceId ->
  run e' (checkEsim query' deviceId') (final (run e (checkEsim query deviceId) st))
  = RunResult (Resolved (Response 200 (PayloadBody p true)))
              (final (run e (checkEsim query deviceId) st)) [] 0.
Proof.
  intros Hfresh Hkey.
  destruct (fresh_answer_cached st query deviceId e p Hfresh) as [Hv Hc].
  assert (Hv' : valid (CheckEsim query' deviceId') = true).
  { destruct (valid (CheckEsim query' deviceId')) eqn:Hv'; [done|].
    apply lookupKey_invalid in Hv'. apply lookupKey_valid in Hv. congruence. }
  rewrite <- Hkey in Hc. unfold lookupKey in Hc.
  unfold valid in Hv'. apply negb_true_iff in Hv'.
  unfold run at 1, checkEsim at 1. rewrite Hv'. cbn. by rewrite Hc.
Qed.

(** X4.  A request changes the cache in one way only: /api/check-esim
    adds, under its own LookupKey and only when nothing was stored there,
    the payload it returns with status 200.  Every other outcome, and
    every /api/search-devices request, leaves the cache as it was; so no
    entry is overwritten or removed by a request handled on its own. *)
Theorem cache_changes_only_by_fresh_answer (st : state) (req : request) (e : env) :
  cache (final (run e (handler req) st)) = cache st
  \/ exists query deviceId p,
       req = CheckEsim query deviceId
       /\ cache st !! lookupKey query deviceId = None
       /\ settled (run e (handler req) st)
          = Resolved (Response 200 (PayloadBody p false))
       /\ cache (final (run e (handler req) st))
          = <[lookupKey query deviceId := p]> (cache st).
Proof.
  destruct req as [q|q d].
  - unfold run, handler, searchDevices. walk; by left.
  - unfold run, handler, checkEsim, answerDevice. fold (lookupKey q d).
    remember (lookupKey q d) as key eqn:Hkey.
    walk; try (by left); right; exists q, d; eexists; rewrite <- Hkey; done.
Qed.

(** X5.  A handler never rejects: every run resolves with a response whose
    status is 200, 400, 429 or 500, and the body goes with the status -
    results or a payload for 200, a bare error for 400, an error with a
    code for 429, an error with details for 500. *)
Theorem handler_always_responds (st : state) (req : request) (e : env) :
  exists r,
    settled (run e (handler req) st) = Resolved r
    /\ shaped req r
    /\ (status r = 200 \/ status r = 400 \/ status r = 429 \/ status r = 500).
Proof.
  destruct req as [q|q d];
    unfold run, handler, searchDevices, checkEsim, answerDevice, shaped;
    walk; eexists; (split; [reflexivity|]); simpl; eauto 10.
Qed.

(** X6.  The upstream calls of a request are at most two and in a fixed
    order: none; or the request's first call alone (the search of the
    trimmed query, or the fetch of the given device id); or, for
    /api/check-esim without a device id, the search followed by the fetch
    of the id of the first search result. *)
Theorem upstream_calls_shape (st : state) (req : request) (e : env) :
  calls (run e (handler req) st) = []
  \/ calls (run e (handler req) st) = [firstCall req]
  \/ exists query deviceId firstResult others,
       req = CheckEsim query deviceId
       /\ truthy deviceId = false
       /\ resultsFor e (firstCall req) = Some (Some firstResult :: others)
       /\ calls (run e (handler req) st)
          = [firstCall req; CallGetDevice (sr_id firstResult)].
Proof.
  destruct req as [q|q d];
    unfold run, handler, searchDevices, checkEsim, answerDevice, firstCall, resultsFor;
    walk; try (by left); try (by right; left).
  all: right; right; eexists _, _, _, _; repeat split; try done.
  all: by rewrite ?Heqb4, ?Heqo0.
Qed.

(** ** Further properties: the gate and the failures *)

(** X7.  No upstream call without a reservation: a request that issues
    any upstream call was valid, was not answered from the cache, came at
    least 5000 ms after [lastCallTs] and not before [remoteBlockedUntil];
    it has recorded its own time as [lastCallTs], and its first call is
    the request's first call. *)
Theorem upstream_call_needs_gate (st : state) (req : request) (e : env) :
  calls (run e (handler req) st) <> [] ->
  passesGate st req (now e) = true
  /\ lastCallTs (final (run e (handler req) st)) = now e
  /\ head (calls (run e (handler req) st)) = Some (firstCall req).
Proof.
  destruct req as [q|q d];
    unfold run, handler, searchDevices, checkEsim, answerDevice,
           passesGate, upstreamBound, valid, lookupKey, firstCall, now;
    walk; done.
Qed.

(** X8.  The cooldown is armed exactly by the responses that carry the
    code 429: such a response leaves [remoteBlockedUntil] at the last
    clock reading of the run plus 30000, and every other response leaves
    [remoteBlockedUntil] as it was. *)
Theorem cooldown_armed_iff_code_429 (st : state) (req : request) (e : env) (r : response) :
  settled (run e (handler req) st) = Resolved r ->
  (codeOf r = Some Code429 ->
   remoteBlockedUntil (final (run e (handler req) st))
   = clock e (pred (reads (run e (handler req) st))) + 30000)
  /\ (codeOf r <> Some Code429 ->
      remoteBlockedUntil (final (run e (handler req) st)) = remoteBlockedUntil st).
Proof.
  revert r.
  destruct req as [q|q d];
    unfold run, handler, searchDevices, checkEsim, answerDevice;
    walk; intros r [= <-]; split; intros Hc; simpl in *; done.
Qed.

(** X9.  An upstream call rejected with an error that is not a rate-limit
    signal is answered 500 with the error's message as [details]; nothing
    is cached and the cooldown is not armed, but the reservation stands:
    [lastCallTs] is the time of the failed request. *)
Theorem upstream_failure_is_500 (st : state) (req : request) (e : env)
    (c : call) (err : error) :
  c ∈ calls (run e (handler req) st) ->
  rejection e c = Some err ->
  isRateLimitSignal err = false ->
  (exists msg,
      settled (run e (handler req) st)
      = Resolved (Response 500 (ErrorBody msg None (Some (err_message err)))))
  /\ cache (final (run e (handler req) st)) = cache st
  /\ remoteBlockedUntil (final (run e (handler req) st)) = remoteBlockedUntil st
  /\ lastCallTs (final (run e (handler req) st)) = now e.
Proof.
  revert c err.
  destruct req as [q|q d];
    unfold run, handler, searchDevices, checkEsim, answerDevice, now;
    walk; leaf; eauto.
Qed.

(** X10.  When the first item of the search results is [null],
    /api/check-esim without a device id fails on reading its id: the
    response is 500, no device is fetched and nothing is cached. *)
Theorem null_first_result_is_500 (st : state) (query deviceId : option jsstring)
    (e : env) (others : list (option searchResult)) :
  passesGate st (CheckEsim query deviceId) (now e) = true ->
  truthy deviceId = false ->
  clock e 0 <= clock e 1 ->
  resultsFor e (firstCall (CheckEsim query deviceId)) = Some (None :: others) ->
  run e (checkEsim query deviceId) st
  = RunResult
      (Resolved (Response 500
         (ErrorBody MsgCheckFailed None (Some (err_message typeError)))))
      (setLastCallTs (now e) st)
      [firstCall (CheckEsim query deviceId)] 2.
Proof.
  intros Ha Hd Hmono Hres.
  pose proof Ha as (_ & _ & Hu)%passesGate_inv. unfold now in Hu.
  apply Z.ltb_ge in Hu.
  assert (Hsafe : (clock e 1 <? remoteBlockedUntil st) = false)
    by (apply Z.ltb_ge; lia).
  simpl in Hres. rewrite Hd in Hres.
  pass_gate Ha. rewrite Hd. cbn. rewrite Hsafe. cbn.
  unfold resultsFor in Hres.
  destruct (reply e _ _) as [raw|err]; [|done].
  injection Hres as Hres. cbn. rewrite Hres. cbn. done.
Qed.

(** X11.  The successful search: a request that the gate lets through,
    with a clock that does not run backwards, is answered 200 with the
    mapped first 8 results of the provider; a provider answer that is not
    an array counts as no results.  The run makes the one search call
    and changes nothing but [lastCallTs]. *)
Theorem search_succeeds (st : state) (query : option jsstring) (e : env)
    (raw : option (list (option searchResult))) :
  passesGate st (SearchDevices query) (now e) = true ->
  clock e 0 <= clock e 1 ->
  reply e _ (search_search (Some (trim (default [] query)))) = Resolved raw ->
  run e (searchDevices query) st
  = RunResult (Resolved (Response 200 (ResultsBody (publicResults (default [] raw)))))
              (setLastCallTs (now e) st)
              [CallSearch (Some (trim (default [] query)))] 2.
Proof.
  intros Ha Hmono Hres.
  pose proof Ha as (_ & _ & Hu)%passesGate_inv. unfold now in Hu.
  apply Z.ltb_ge in Hu.
  assert (Hsafe : (clock e 1 <? remoteBlockedUntil st) = false)
    by (apply Z.ltb_ge; lia).
  pass_gate Ha. rewrite Hsafe. cbn. by rewrite Hres.
Qed.

(** ** Further properties: the entries of the cache *)

(** The payload built from a device agrees with itself. *)
Lemma answerPayload_coherent key device firstResult query selectedId :
  (forall d, key = js "id:" ++ d -> selectedId = d) ->
  coherent key (answerPayload device firstResult query selectedId).
Proof.
  intros Hid. unfold answerPayload.
  destruct (scanSim device) as [t|]; [|done].
  destruct (nonEmpty t) eqn:Ht; simpl; [|done].
  by rewrite Ht.
Qed.

Lemma startsWith_app (s t : jsstring) : startsWith (s ++ t) s = true.
Proof.
  induction s as [|a s IH]; [done|].
  simpl. by rewrite N.eqb_refl.
Qed.

Lemma effectsAll_tryCatch {A : Type} P (p : prog A) h :
  effectsAll P p -> (forall err, effectsAll P (h err)) ->
  effectsAll P (tryCatch p h).
Proof.
  intros Hp Hh. induction p as [a|err|X e k IH]; simpl in *; auto.
  destruct Hp as [He Hk]. split; [done|]. intros x. apply IH, Hk.
Qed.

Lemma handler_stores_coherent req : effectsAll (storesOnly coherent) (handler req).
Proof.
  destruct req as [q|q d]; simpl.
  - unfold searchDevices. apply effectsAll_tryCatch; paths.
  - unfold checkEsim, answerDevice. apply effectsAll_tryCatch; [|paths].
    unfold normalizeCacheKey.
    repeat (first [ progress cbn | split | intro | branch ]);
      try done; try apply answerPayload_coherent.
    all: try (by vm_compute).
    all: try apply startsWith_app.
    by intros d' Heq%app_inv_head.
Qed.

Lemma exec_stores_coherent {A : Type} clk (p : prog A) st n :
  effectsAll (storesOnly coherent) p -> map_Forall coherent (cache st) ->
  map_Forall coherent (cache (exec clk p st n).1.2) /\
  match (exec clk p st n).1.1 with
  | Suspended c k => forall o, effectsAll (storesOnly coherent) (k o)
  | _ => True
  end.
Proof.
  revert st n.
  induction p as [a|err|X e k IH]; intros st n Hp Hst; simpl in *; auto.
  destruct Hp as [He Hk].
  destruct e as [ | | t | | t | key | key v | Y c ]; simpl;
    try (apply IH; [apply Hk | done]).
  - apply IH; [apply Hk|]. simpl. by apply map_Forall_insert_2.
  - split; [done|]. intros o. apply Hk.
Qed.

Lemma segment_entriesCoherent clk p s rest :
  effectsAll (storesOnly coherent) p -> entriesCoherent s ->
  Forall (fun t => forall o, effectsAll (storesOnly coherent) (task_rest t o)) rest ->
  entriesCoherent (segment clk p s rest).
Proof.
  intros Hp [Hc _] Hrest. unfold segment.
  destruct (exec_stores_coherent clk p (srv s) 0 Hp Hc) as [Hc' Hk].
  destruct (exec clk p (srv s) 0) as [[h st] n]. simpl in *.
  destruct h; split; simpl; try done.
  apply Forall_app. split; [done|]. by apply Forall_singleton.
Qed.

Lemma step_entriesCoherent s ev : entriesCoherent s -> entriesCoherent (step s ev).
Proof.
  intros Hs. destruct ev as [req clk|i a clk]; simpl.
  - apply segment_entriesCoherent; [apply handler_stores_coherent | done | apply Hs].
  - destruct (pending s !! i) as [t|] eqn:Hi; [|done].
    destruct (settle (task_call t) a) as [o|]; [|done].
    destruct Hs as [Hc Hp].
    apply segment_entriesCoherent; [|done|].
    + eapply Forall_lookup_1 in Hp; [|done]. apply Hp.
    + by apply Forall_delete.
Qed.

Lemma play_entriesCoherent evs : entriesCoherent (play evs).
Proof.
  unfold play. induction evs as [|ev evs IH] using rev_ind.
  - split; [apply map_Forall_empty | constructor].
  - rewrite foldl_snoc. by apply step_entriesCoherent.
Qed.

(** X13.  Every entry of the cache, in every state the server can reach,
    is coherent: a [found: false] payload is stored only under a query
    key; a verdict stored under the key of a device id is for that id; a
    [null] [simRaw] goes with a [null] [supportsEsim] and the "no SIM
    details" message; a [simRaw] text is non-empty and goes with the
    verdict and the message computed from it. *)
Theorem cache_entries_coherent (st : state) (key : jsstring) (p : payload) :
  reachable st -> cache st !! key = Some p -> coherent key p.
Proof.
  intros [evs <-] Hp. by apply (play_entriesCoherent evs).
Qed.

(** ** Further properties: the reservation in the event loop *)

Lemma exec_keepsLastCallTs {A : Type} clk (p : prog A) st n :
  effectsAll keepsLastCallTs p ->
  lastCallTs (exec clk p st n).1.2 = lastCallTs st /\
  match (exec clk p st n).1.1 with
  | Suspended c k => forall o, effectsAll keepsLastCallTs (k o)
  | _ => True
  end.
Proof.
  revert st n.
  induction p as [a|err|X e k IH]; intros st n Hp; simpl in *; auto.
  destruct Hp as [He Hk].
  destruct e as [ | | t | | t | key | key v | Y c ]; simpl in *;
    try done; try (by apply IH).
  - destruct (IH tt (setRemoteBlockedUntil t st) n (Hk tt)) as [Hl Hs]. done.
  - destruct (IH tt (cacheSet key v st) n (Hk tt)) as [Hl Hs]. done.
Qed.

Lemma exec_reservesFirst {A : Type} clk (p : prog A) st n :
  reservesFirst p ->
  match (exec clk p st n).1.1 with
  | Suspended c k => forall o, effectsAll keepsLastCallTs (k o)
  | _ => True
  end.
Proof.
  revert st n.
  induction p as [a|err|X e k IH]; intros st n Hp; simpl in *; auto.
  destruct e as [ | | t | | t | key | key v | Y c ]; simpl in *;
    try (by apply IH).
  done.
Qed.

Lemma handler_reservesFirst req : reservesFirst (handler req).
Proof.
  destruct req as [q|q d];
    unfold handler, searchDevices, checkEsim, answerDevice; paths.
Qed.

Lemma step_reservationsMade s ev : reservationsMade s -> reservationsMade (step s ev).
Proof.
  unfold reservationsMade. intros Hs.
  destruct ev as [req clk|i a clk]; simpl.
  - unfold segment.
    pose proof (exec_reservesFirst clk (handler req) (srv s) 0
                  (handler_reservesFirst req)) as Hk.
    destruct (exec clk (handler req) (srv s) 0) as [[h st] n]. simpl in *.
    destruct h; simpl; try done.
    apply Forall_app. split; [done|]. by apply Forall_singleton.
  - destruct (pending s !! i) as [t|] eqn:Hi; [|done].
    destruct (settle (task_call t) a) as [o|]; [|done].
    unfold segment.
    assert (Ht : effectsAll keepsLastCallTs (task_rest t o)).
    { eapply Forall_lookup_1 in Hs; [|done]. apply Hs. }
    destruct (exec_keepsLastCallTs clk (task_rest t o) (srv s) 0 Ht) as [_ Hk].
    destruct (exec clk (task_rest t o) (srv s) 0) as [[h st] n]. simpl in *.
    destruct h; simpl; try (by apply Forall_delete).
    apply Forall_app. split; [by apply Forall_delete | by apply Forall_singleton].
Qed.

Lemma play_reservationsMade evs : reservationsMade (play evs).
Proof.
  unfold play. induction evs as [|ev evs IH] using rev_ind.
  - constructor.
  - rewrite foldl_snoc. by apply step_reservationsMade.
Qed.

Lemma arrival_reserves s req clk :
  lastCallTs (srv (step s (Arrive req clk))) = reservedAfter s (Arrive req clk).
Proof.
  unfold reservedAfter.
  destruct (passesGate (srv s) req (clk 0%nat)) eqn:Ha; [by apply arrival_records|].
  simpl. unfold segment.
  unfold passesGate, upstreamBound, valid, lookupKey in Ha.
  destruct req as [q|q d];
    unfold handler, searchDevices, checkEsim, answerDevice;
    repeat (cbn;
            match goal with
            | |- context [if ?c then _ else _] => destruct c eqn:?
            | |- context [cache ?st !! ?k] => destruct (cache st !! k) eqn:?
            end);
    cbn; try done;
    repeat match goal with
    | H : ?c = _, Ha : context [?c] |- _ => rewrite H in Ha
    end; done.
Qed.

(** X14.  In the event loop [lastCallTs] changes only when a request
    arrives and the gate lets it through, and then it becomes that
    request's current time: an arrival that is rejected or answered from
    the cache leaves it alone, and so does the settling of any upstream
    call, successful or not. *)
Theorem reservation_only_on_arrival (evs : list event) (ev : event) :
  lastCallTs (srv (step (play evs) ev)) = reservedAfter (play evs) ev.
Proof.
  destruct ev as [req clk|i a clk]; [apply arrival_reserves|].
  simpl. destruct (pending (play evs) !! i) as [t|] eqn:Hi; [|done].
  destruct (settle (task_call t) a) as [o|]; [|done].
  unfold segment.
  assert (Ht : effectsAll keepsLastCallTs (task_rest t o)).
  { pose proof (play_reservationsMade evs) as Hs.
    eapply Forall_lookup_1 in Hs; [|done]. apply Hs. }
  destruct (exec_keepsLastCallTs clk (task_rest t o) (srv (play evs)) 0 Ht) as [Hl _].
  destruct (exec clk (task_rest t o) (srv (play evs)) 0) as [[h st] n]. simpl in *.
  by destruct h.
Qed.

(** ** Further properties: the public search results *)

(** X15.  Every item of a search response comes from a non-null item among
    the provider's first 8, with its id and name; its [image] and [brand]
    are [null] or a non-empty string, never the empty string. *)
Theorem search_hit_fields (results : list (option searchResult)) (h : searchHit) :
  h ∈ publicResults results ->
  (exists d, Some d ∈ take 8 results /\ h = toHit d)
  /\ hit_image h <> Some []
  /\ hit_brand h <> Some [].
Proof.
  unfold publicResults. intros ([d|] & Hin & Hmap)%list_elem_of_omap; [|done].
  injection Hmap as <-. split; [by exists d|].
  unfold orNull. simpl.
  split.
  - destruct (sr_thumbnail d) as [[|c t]|]; done.
  - destruct (sr_brand d) as [[|c t]|]; done.
Qed.

(** ** Further properties: validation *)

(** X16.  A request is answered 400 exactly when it fails validation - for
    /api/search-devices a blank query, for /api/check-esim a blank query
    and no device id, so that either one of the two suffices.  The 400
    comes before anything else: no clock read, no upstream call, no
    change of state. *)
Theorem rejected_400_iff_invalid (st : state) (req : request) (e : env) :
  (valid req = false ->
   exists msg,
     run e (handler req) st
     = RunResult (Resolved (Response 400 (ErrorBody msg None None))) st [] 0)
  /\ (valid req = true ->
      forall r, settled (run e (handler req) st) = Resolved r -> status r <> 400).
Proof.
  destruct req as [q|q d]; unfold valid; split.
  - intros Hv%negb_false_iff.
    unfold run, handler, searchDevices. rewrite Hv. cbn. eauto.
  - intros Hv%negb_true_iff.
    unfold run, handler, searchDevices. rewrite Hv. walk; by intros r [= <-].
  - intros Hv%negb_false_iff.
    unfold run, handler, checkEsim. rewrite Hv. cbn. eauto.
  - intros Hv%negb_true_iff.
    unfold run, handler, checkEsim, answerDevice. rewrite Hv.
    walk; by intros r [= <-].
Qed.

(** ** Further properties: the scan *)

Lemma filter_usable_nil (l : list specEntry) :
  (forall x, x ∈ l -> usable x = false) -> List.filter usable l = [].
Proof.
  induction l as [|x l IH]; intros Hall; simpl; [done|].
  rewrite (Hall x) by apply list_elem_of_here.
  apply IH. intros y Hy. apply Hall. by apply list_elem_of_further.
Qed.

(** X17.  A section that holds no usable entry - a [null] section, a
    section whose [specifications] is not an array, a section of [null]
    entries, of entries named otherwise, or of sim-named entries with a
    falsy value - has no influence on the scan, wherever it stands among
    the sections. *)
Theorem unusable_section_ignored (name : option jsstring)
    (before after : list (option specSection)) (junk : option specSection) :
  (forall x, x ∈ sectionEntries junk -> usable x = false) ->
  scanSim (DeviceDetail name (Some (before ++ junk :: after)))
  = scanSim (DeviceDetail name (Some (before ++ after))).
Proof.
  intros Hjunk. rewrite !scanSim_last. unfold entries. simpl.
  rewrite !fmap_app, !concat_app, !List.filter_app. simpl.
  by rewrite List.filter_app, (filter_usable_nil _ Hjunk).
Qed.

(** ** Further properties: every request is answered once *)

Lemma tryCatch_neverRaises {A : Type} (p : prog A) h :
  (forall err, neverRaises (h err)) -> neverRaises (tryCatch p h).
Proof.
  intros Hh. induction p as [a|err|X e k IH]; simpl; auto.
Qed.

Lemma handler_neverRaises req : neverRaises (handler req).
Proof.
  destruct req as [q|q d]; simpl;
    apply tryCatch_neverRaises; intros err; paths.
Qed.

Lemma exec_neverRaises {A : Type} clk (p : prog A) st n :
  neverRaises p ->
  match (exec clk p st n).1.1 with
  | Returned _ => True
  | Raised _ => False
  | Suspended c k => forall o, neverRaises (k o)
  end.
Proof.
  revert st n.
  induction p as [a|err|X e k IH]; intros st n Hp; simpl in *; auto.
  destruct e as [ | | t | | t | key | key v | Y c ]; simpl; try (by apply IH).
  done.
Qed.

(** One segment either answers or leaves one handler suspended. *)
Lemma segment_accounts clk p s rest :
  neverRaises p ->
  Forall (fun t => forall o, neverRaises (task_rest t o)) rest ->
  (length (sent (segment clk p s rest)) + length (pending (segment clk p s rest))
   = S (length (sent s) + length rest))%nat
  /\ Forall (fun t => forall o, neverRaises (task_rest t o))
            (pending (segment clk p s rest)).
Proof.
  intros Hp Hrest. unfold segment.
  pose proof (exec_neverRaises clk p (srv s) 0 Hp) as Hk.
  destruct (exec clk p (srv s) 0) as [[h st] n]. simpl in *.
  destruct h; simpl; [|done|].
  - split; [|done]. rewrite length_app. simpl. lia.
  - split.
    + rewrite length_app. simpl. lia.
    + apply Forall_app. split; [done|]. by apply Forall_singleton.
Qed.

Lemma play_accounted evs : accounted evs.
Proof.
  unfold accounted, arrivals, play.
  induction evs as [|ev evs [IHn IHp]] using rev_ind; [by split|].
  rewrite foldl_snoc, List.filter_app, length_app. fold (play evs) in *.
  destruct ev as [req clk|i a clk]; simpl.
  - destruct (segment_accounts clk (handler req) (play evs) (pending (play evs))
                (handler_neverRaises req) IHp) as [Hn Hp].
    split; [lia | done].
  - destruct (pending (play evs) !! i) as [t|] eqn:Hi; [|split; [lia|done]].
    destruct (settle (task_call t) a) as [o|]; [|split; [lia|done]].
    assert (Ht : neverRaises (task_rest t o)).
    { eapply Forall_lookup_1 in IHp; [|done]. apply IHp. }
    destruct (segment_accounts clk (task_rest t o) (play evs)
                (delete i (pending (play evs))) Ht (Forall_delete _ _ _ IHp))
      as [Hn Hp].
    split; [|done].
    rewrite length_delete in Hn by (by eexists).
    apply lookup_lt_Some in Hi. lia.
Qed.

(** X18.  No request is lost and none is answered twice: after any
    events, the responses sent and the handlers still waiting for an
    upstream call together number exactly the requests that arrived.  In
    particular no handler ever ends in an uncaught exception. *)
Theorem every_request_accounted (evs : list event) :
  (length (sent (play evs)) + length (pending (play evs)))%nat = arrivals evs.
Proof. apply play_accounted. Qed.

End Server.

(** ** Examples

    The theorems at sample requests and devices, and the inputs on which
    a sentence of the specification fails.  They are computed with
    [asciiEngine]: the text that reaches [toLowerCase] in them is ASCII,
    on which every engine lowers A-Z and nothing else. *)

#[global] Existing Instance asciiEngine.

Lemma local_throttle_window_witness :
  let e1 := Env (Sample.steady 10000)
                (Sample.provider (Resolved (Some [Some Sample.pixel]))
                                 (Resolved Sample.pixelDetail)) in
  let e2 := Env (Sample.steady 14999)
                (Sample.provider (Resolved (Some [])) (Resolved Sample.noSim)) in
  let st1 := final (run e1 (handler (CheckEsim (Some (js "Pixel 8")) None)) initial) in
  let s1 := step boot (Arrive (CheckEsim (Some (js "Pixel 8")) None) (Sample.steady 10000)) in
  (lastCallTs st1 = 10000
   /\ run e2 (handler (CheckEsim None (Some (js "apple_iphone_15-12559")))) st1
      = RunResult (Resolved throttled) st1 [] 1)
  /\ run e2 (handler (SearchDevices (Some (js "galaxy")))) Sample.cooling
     = RunResult (Resolved throttled) Sample.cooling [] 1
  /\ lastCallTs (srv s1) = 10000
  /\ step s1 (Arrive (SearchDevices (Some (js "galaxy"))) (Sample.steady 14999))
     = answered s1 throttled.
Proof.
  intros e1 e2 st1 s1.
  destruct local_throttle_window as (Hpair & Hstate & Hrec & Hloop).
  split; [|split; [|split]].
  - apply (Hpair initial (CheckEsim (Some (js "Pixel 8")) None) e1
             (CheckEsim None (Some (js "apple_iphone_15-12559"))) e2);
      vm_compute; reflexivity.
  - apply Hstate; vm_compute; reflexivity.
  - apply (Hrec boot (CheckEsim (Some (js "Pixel 8")) None) (Sample.steady 10000)).
    vm_compute. reflexivity.
  - apply Hloop; vm_compute; reflexivity.
Defined.

(** C2 as worded does not hold: a request made 2 s after the call that
    drew the upstream 429 is strictly inside the blocked window, yet it
    is rejected with LOCAL_THROTTLE, the check that the gate makes
    first. *)
Lemma cooldown_counterexample :
  let e1 := Env (Sample.steady 10000)
                (Sample.provider (Rejected (Sample.http 429)) (Resolved Sample.noSim)) in
  let e2 := Env (Sample.steady 12000)
                (Sample.provider (Resolved (Some [])) (Resolved Sample.noSim)) in
  let r1 := run e1 (handler (SearchDevices (Some (js "pixel")))) initial in
  let r2 := run e2 (handler (SearchDevices (Some (js "pixel")))) (final r1) in
  settled r1 = Resolved rateLimited
  /\ remoteBlockedUntil (final r1) = 40000
  /\ now e2 = 12000
  /\ upstreamBound (final r1) (SearchDevices (Some (js "pixel"))) = true
  /\ settled r2 = Resolved throttled
  /\ codeOf throttled = Some LOCAL_THROTTLE
  /\ codeOf throttled <> Some UPSTREAM_BLOCKED.
Proof. vm_compute. repeat split; congruence. Qed.

Lemma cooldown_window_witness :
  let down := Sample.provider (Rejected (Sample.http 429)) (Resolved Sample.noSim) in
  let up := Sample.provider (Resolved (Some [Some Sample.pixel]))
                            (Resolved Sample.pixelDetail) in
  let req := CheckEsim (Some (js "Pixel 8")) None in
  remoteBlockedUntil (final (run (Env (Sample.readings [10000; 10001] 10250) down)
                                 (handler req) initial)) = 40250
  /\ remoteBlockedUntil
       (final (run (Env (Sample.readings [50000; 39000] 39001) up)
                   (handler req) Sample.cooling)) = 69001
  /\ (exists msg,
        run (Env (Sample.steady 20000) up) (handler req) Sample.cooling
        = RunResult (Resolved (Response 429 (ErrorBody msg (Some UPSTREAM_BLOCKED) None)))
                    Sample.cooling [] 1)
  /\ run (Env (Sample.steady 12000) up) (handler req) Sample.cooling
     = RunResult (Resolved throttled) Sample.cooling [] 1
  /\ head (calls (run (Env (Sample.steady 40000) up) (handler req) Sample.cooling))
     = Some (CallSearch (Some (js "Pixel 8"))).
Proof.
  intros down up req.
  destruct cooldown_window as (Harm & Hclient & Hshut & Hopen).
  split; [|split; [|split; [|split]]].
  - destruct (Harm initial req (Env (Sample.readings [10000; 10001] 10250) down)
                (CallSearch (Some (js "Pixel 8"))) (Sample.http 429)) as [_ Hset].
    + vm_compute. apply list_elem_of_here.
    + reflexivity.
    + reflexivity.
    + exact Hset.
  - destruct (Hclient Sample.cooling req
                (Env (Sample.readings [50000; 39000] 39001) up)) as (_ & Hset & _).
    + vm_compute. reflexivity.
    + by exists (Some (js "Pixel 8")).
    + vm_compute. reflexivity.
    + exact Hset.
  - destruct (Hshut Sample.cooling req (Env (Sample.steady 20000) up)) as [Hblk _].
    + vm_compute. reflexivity.
    + vm_compute. reflexivity.
    + apply Hblk. vm_compute. discriminate.
  - destruct (Hshut Sample.cooling req (Env (Sample.steady 12000) up)) as [_ Hthr].
    + vm_compute. reflexivity.
    + vm_compute. reflexivity.
    + apply Hthr. vm_compute. reflexivity.
  - destruct (Hopen Sample.cooling req (Env (Sample.steady 40000) up)) as [Hcall _].
    + vm_compute. reflexivity.
    + vm_compute. discriminate.
    + vm_compute. discriminate.
    + vm_compute. discriminate.
    + exact Hcall.
Defined.

Lemma cache_hit_short_circuits_witness :
  let s := play Sample.missThenRepeat in
  let e := Env (Sample.steady 10500)
               (Sample.provider (Rejected (Sample.http 429)) (Rejected (Sample.http 429))) in
  run e (checkEsim (Some (js "  iPhone 99 ")) None) (srv s)
  = RunResult (Resolved (Response 200 (PayloadBody (NotFound MsgNoDevice) true)))
              (srv s) [] 0
  /\ step s (Arrive (CheckEsim (Some (js "  iPhone 99 ")) None) (Sample.steady 10500))
     = answered s (Response 200 (PayloadBody (NotFound MsgNoDevice) true)).
Proof.
  intros s e.
  destruct (cache_hit_short_circuits (srv s) (Some (js "  iPhone 99 ")) None
              (NotFound MsgNoDevice)) as [Hrun Hloop].
  - by exists Sample.missThenRepeat.
  - vm_compute. reflexivity.
  - split; [apply Hrun | by apply Hloop].
Defined.

(** C4 as worded does not hold: of two sim-named entries the last one in
    scan order has an empty value; the scan skips it and reports the
    first. *)
Lemma last_sim_entry_counterexample :
  List.filter simNamed (entries Sample.twoSims)
  = [Sample.entry (js "SIM") (VString (js "Nano-SIM"));
     Sample.entry (js "SIM 2") (VString [])]
  /\ simRaw (answerPayload Sample.twoSims None None (js "phone_a-1")) = Some (js "Nano-SIM")
  /\ simRaw (answerPayload Sample.twoSims None None (js "phone_a-1"))
     <> Some (textOf (Sample.entry (js "SIM 2") (VString []))).
Proof. vm_compute. repeat split; congruence. Qed.

Lemma last_usable_entry_wins_witness :
  let first := Sample.entry (js "SIM") (VString (js "Nano-SIM")) in
  let second := Sample.entry (js "Dual SIM") (VArray [js "Nano-SIM"; js "eSIM"]) in
  List.filter usable (entries Sample.dualSim) = [first; second]
  /\ scanSim Sample.dualSim = Some (textOf second)
  /\ simRaw (answerPayload Sample.dualSim None None (js "phone_d-4"))
     = Some (js "Nano-SIM | eSIM")
  /\ scanSim Sample.dualSim <> Some (textOf first).
Proof.
  intros first second.
  destruct (last_usable_entry_wins Sample.dualSim None None (js "phone_d-4"))
    as (Hscan & Hraw & Hlast).
  assert (Hwins : scanSim Sample.dualSim = Some (textOf second)).
  { apply (Hlast [first; Sample.entry (js "Dimensions") (VString (js "150 x 70 x 8 mm"))]
                 second
                 [Sample.entry (js "Colors") (VString (js "Black"))]);
      reflexivity. }
  split; [reflexivity|]. split; [exact Hwins|]. split.
  - rewrite Hraw. reflexivity.
  - rewrite Hwins. vm_compute. discriminate.
Defined.

(** C5 as worded does not hold: the only sim-named entry holds an empty
    array, whose joined text is empty; [simRaw] is [null], not that text,
    and [supportsEsim] is [null], not [false]. *)
Lemma sim_verdict_counterexample :
  List.filter simNamed (entries Sample.emptySimList) = [Sample.entry (js "SIM") (VArray [])]
  /\ textOf (Sample.entry (js "SIM") (VArray [])) = []
  /\ simRaw (answerPayload Sample.emptySimList None None (js "phone_b-2")) = None
  /\ supportsEsim (answerPayload Sample.emptySimList None None (js "phone_b-2")) = None
  /\ supportsEsim (answerPayload Sample.emptySimList None None (js "phone_b-2")) <> Some false.
Proof. vm_compute. repeat split; congruence. Qed.

Lemma sim_text_and_verdict_witness :
  simRaw (answerPayload Sample.pixelDetail None None (js "google_pixel_8-12546"))
  = Some (js "Nano-SIM | eSIM")
  /\ supportsEsim (answerPayload Sample.pixelDetail None None (js "google_pixel_8-12546"))
     = Some true.
Proof.
  pose proof (sim_text_and_verdict Sample.pixelDetail None None (js "google_pixel_8-12546")
           (Sample.entry (js "SIM") (VArray [js "Nano-SIM"; js "eSIM"]))
           (VArray [js "Nano-SIM"; js "eSIM"])) as W.
  apply W; reflexivity.
Defined.

Lemma no_sim_entry_undetermined_witness :
  let e := Env (Sample.steady 10000)
               (Sample.provider (Resolved (Some [])) (Resolved Sample.noSim)) in
  exists p,
    settled (run e (checkEsim None (Some (js "tablet_c-3"))) initial)
    = Resolved (Response 200 (PayloadBody p false))
    /\ found p = true /\ simRaw p = None /\ supportsEsim p = None
    /\ supportsEsim p <> Some false
    /\ cache (final (run e (checkEsim None (Some (js "tablet_c-3"))) initial))
         !! lookupKey None (Some (js "tablet_c-3"))
       = Some p.
Proof.
  intros e.
  apply (no_sim_entry_undetermined initial None (Some (js "tablet_c-3")) e
           (CallGetDevice (js "tablet_c-3")) Sample.noSim).
  - vm_compute. apply list_elem_of_here.
  - reflexivity.
  - intros x Hx. vm_compute in Hx.
    apply list_elem_of_singleton in Hx as ->. reflexivity.
Defined.

Lemma falsy_value_skipped_witness :
  scanEntry (Some (js "Nano-SIM")) (Some (Sample.entry (js "SIM 2") (VString [])))
  = Some (js "Nano-SIM")
  /\ exists name selectedId,
      settled (run (Env (Sample.steady 10000)
                        (Sample.provider (Resolved (Some []))
                                         (Resolved Sample.emptySimList)))
                   (checkEsim None (Some (js "phone_b-2"))) initial)
      = Resolved (Response 200
          (PayloadBody (Found name selectedId None None MsgNoSimDetails) false)).
Proof.
  destruct falsy_value_skipped as [Hskip Hbranch]. split.
  - apply Hskip. reflexivity.
  - apply (Hbranch initial None (Some (js "phone_b-2")) _
             (CallGetDevice (js "phone_b-2")) Sample.emptySimList).
    + vm_compute. apply list_elem_of_here.
    + reflexivity.
    + intros x Hx _. vm_compute in Hx.
      apply list_elem_of_singleton in Hx as ->. reflexivity.
Defined.

(** C7 as worded does not hold: a request with a device id that the
    provider does not know passes validation and the gate, and no search
    would match; the handler runs no search at all and fetches the
    device by the id given.  Whether the provider rejects that fetch
    or answers it with an empty detail, the response is not
    [found: false] and no not-found payload is cached. *)
Lemma unknown_deviceId_counterexample :
  let gone := Env (Sample.steady 10000)
                  (Sample.provider (Resolved (Some [])) (Rejected (Sample.http 404))) in
  let hollow := Env (Sample.steady 10000)
                    (Sample.provider (Resolved (Some []))
                                     (Resolved (DeviceDetail None None))) in
  let r1 := run gone (checkEsim None (Some (js "no-such-device"))) initial in
  let r2 := run hollow (checkEsim None (Some (js "no-such-device"))) initial in
  passesGate initial (CheckEsim None (Some (js "no-such-device"))) 10000 = true
  /\ settled r1
     = Resolved (Response 500 (ErrorBody MsgCheckFailed None (Some (js "Request failed"))))
  /\ calls r1 = [CallGetDevice (js "no-such-device")]
  /\ cache (final r1) !! lookupKey None (Some (js "no-such-device")) = None
  /\ settled r2
     = Resolved (Response 200
         (PayloadBody (Found None (js "no-such-device") None None MsgNoSimDetails) false))
  /\ calls r2 = [CallGetDevice (js "no-such-device")].
Proof. vm_compute. repeat split; reflexivity. Qed.

Lemma not_found_after_empty_search_witness :
  let e := Env (Sample.steady 10000)
               (Sample.provider (Resolved (Some [])) (Rejected (Sample.http 404))) in
  settled (run e (checkEsim (Some (js "iPhone 99")) None) initial)
  = Resolved (Response 200 (PayloadBody (NotFound MsgNoDevice) false))
  /\ cache (final (run e (checkEsim (Some (js "iPhone 99")) None) initial)) !! (js "q:iphone 99")
     = Some (NotFound MsgNoDevice)
  /\ calls (run e (checkEsim None (Some (js "no-such-device"))) initial)
     = [CallGetDevice (js "no-such-device")].
Proof.
  intros e. destruct not_found_after_empty_search as [Hmiss Hid].
  destruct (Hmiss initial (Some (js "iPhone 99")) None e) as (Hresp & _ & Hcache & _);
    [vm_compute; reflexivity | reflexivity | vm_compute; discriminate
    | reflexivity |].
  destruct (Hid initial None (Some (js "no-such-device")) e) as (Hcalls & _);
    [vm_compute; reflexivity | reflexivity |].
  split; [exact Hresp | split; [exact Hcache | exact Hcalls]].
Defined.

Lemma getDevice_unguarded_witness :
  exec (Sample.steady 20000) (safeSearchDevices (Some (js "pixel"))) Sample.cooling 0
  = (Raised upstreamBlockedError, Sample.cooling, 1%nat).
Proof.
  destruct getDevice_unguarded as (Hguard & _).
  apply (Hguard (Sample.steady 20000) (Some (js "pixel")) Sample.cooling 0%nat).
  vm_compute. reflexivity.
Defined.

Lemma search_validation_and_results_witness :
  let listed := None :: replicate 9 (Some Sample.pixel) in
  let e := Env (Sample.steady 10000)
               (Sample.provider (Resolved (Some listed)) (Resolved Sample.pixelDetail)) in
  let bad := RunResult (Resolved (Response 400 (ErrorBody MsgSearchNeedsQuery None None)))
                       initial [] 0 in
  run e (searchDevices None) initial = bad
  /\ run e (searchDevices (Some [])) initial = bad
  /\ run e (searchDevices (Some (js "   "))) initial = bad
  /\ run e (searchDevices (Some [160; 8195; 12288; 65279]%N)) initial = bad
  /\ settled (run e (searchDevices (Some (js " pixel "))) initial)
     = Resolved (Response 200 (ResultsBody (replicate 7 (toHit Sample.pixel))))
  /\ calls (run e (searchDevices (Some (js " pixel "))) initial)
     = [CallSearch (Some (js "pixel"))]
  /\ exists hits,
      resultsFor e (CallSearch (Some (js "pixel"))) = Some hits
      /\ length hits = 10%nat
      /\ replicate 7 (toHit Sample.pixel) = toHit <$> omap id (take 8 hits).
Proof.
  intros listed e bad.
  destruct search_validation_and_results as (Hbad & Hgood & Hback).
  assert (Hrun : settled (run e (searchDevices (Some (js " pixel "))) initial)
                 = Resolved (Response 200 (ResultsBody (replicate 7 (toHit Sample.pixel))))
                 /\ calls (run e (searchDevices (Some (js " pixel "))) initial)
                    = [CallSearch (Some (js "pixel"))]).
  { destruct (Hgood initial (js " pixel ") e (Some listed)) as (Hresp & Hcalls & _);
      [reflexivity | vm_compute; discriminate | vm_compute; discriminate
      | vm_compute; discriminate | reflexivity |].
    split; [exact Hresp | exact Hcalls]. }
  split; [|split; [|split; [|split; [|split; [|split]]]]].
  - apply Hbad. by left.
  - apply Hbad. right. exists []. split; reflexivity.
  - apply Hbad. right. exists (js "   "). split; reflexivity.
  - apply Hbad. right. exists [160; 8195; 12288; 65279]%N. split; reflexivity.
  - apply Hrun.
  - apply Hrun.
  - destruct (Hback initial (js " pixel ") e _ eq_refl (proj1 Hrun) eq_refl)
      as (hits & results & Hhits & Hjson & Hshape & _).
    exists hits. split; [exact Hhits|].
    injection Hjson as <-. split; [|exact Hshape].
    vm_compute in Hhits. by injection Hhits as <-.
Defined.

Lemma query_key_normalized_witness :
  lookupKey (Some (js "  Pixel 8 ")) None = lookupKey (Some (js "pixel 8")) None
  /\ lookupKey (Some ([160; 8195]%N ++ js "Pixel 8" ++ [12288; 10]%N)) None
     = js "q:pixel 8".
Proof.
  destruct (query_key_normalized (js "  Pixel 8 ") (js "pixel 8")) as [[_ Hsame] _].
  destruct (query_key_normalized (js "Pixel 8") (js "Pixel 8")) as (_ & _ & Hpad).
  split.
  - apply Hsame. reflexivity.
  - rewrite (Hpad [160; 8195]%N [12288; 10]%N) by reflexivity. reflexivity.
Defined.

Lemma device_key_separate_witness :
  lookupKey (Some (js "pixel")) (Some (js "google_pixel_8-12546"))
  = lookupKey None (Some (js "google_pixel_8-12546")).
Proof.
  destruct (device_key_separate (Some (js "pixel")) None (Some (js "google_pixel_8-12546")) None)
    as [Hsame _]; [reflexivity | exact Hsame].
Defined.

Lemma answer_served_again_witness :
  let e := Env (Sample.steady 10000)
               (Sample.provider (Resolved (Some [Some Sample.pixel]))
                                (Resolved Sample.pixelDetail)) in
  let e' := Env (Sample.steady 10001)
                (Sample.provider (Rejected (Sample.http 429)) (Rejected (Sample.http 429))) in
  let st1 := final (run e (checkEsim (Some (js "Pixel 8")) None) initial) in
  run e' (checkEsim (Some (js " PIXEL 8  ")) None) st1
  = RunResult
      (Resolved (Response 200
         (PayloadBody (Found (Some (js "Google Pixel 8")) (js "google_pixel_8-12546")
                             (Some (js "Nano-SIM | eSIM")) (Some true) MsgSupportsEsim)
                      true)))
      st1 [] 0.
Proof.
  intros e e' st1.
  apply (answer_served_again initial (Some (js "Pixel 8")) None (Some (js " PIXEL 8  ")) None e e');
    reflexivity.
Defined.

Lemma upstream_call_needs_gate_witness :
  let e := Env (Sample.steady 10000)
               (Sample.provider (Resolved (Some [])) (Resolved Sample.noSim)) in
  passesGate initial (SearchDevices (Some (js "galaxy"))) (now e) = true
  /\ lastCallTs (final (run e (handler (SearchDevices (Some (js "galaxy")))) initial)) = now e
  /\ head (calls (run e (handler (SearchDevices (Some (js "galaxy")))) initial))
     = Some (firstCall (SearchDevices (Some (js "galaxy")))).
Proof.
  intros e. apply (upstream_call_needs_gate initial (SearchDevices (Some (js "galaxy"))) e).
  vm_compute. discriminate.
Defined.

Lemma cooldown_armed_iff_code_429_witness :
  let e := Env (Sample.steady 10000)
               (Sample.provider (Rejected (Sample.http 503)) (Resolved Sample.noSim)) in
  remoteBlockedUntil (final (run e (handler (SearchDevices (Some (js "galaxy")))) initial))
  = remoteBlockedUntil initial.
Proof.
  intros e.
  destruct (cooldown_armed_iff_code_429 initial (SearchDevices (Some (js "galaxy"))) e
              (Response 500 (ErrorBody MsgSearchFailed None (Some (js "Request failed")))))
    as [_ Hkeep]; [reflexivity|].
  apply Hkeep. discriminate.
Defined.

Lemma upstream_failure_is_500_witness :
  let e := Env (Sample.steady 10000)
               (Sample.provider (Resolved (Some [Some Sample.pixel]))
                                (Rejected (Sample.http 404))) in
  settled (run e (handler (CheckEsim (Some (js "pixel 8")) None)) initial)
  = Resolved (Response 500 (ErrorBody MsgCheckFailed None (Some (js "Request failed"))))
  /\ cache (final (run e (handler (CheckEsim (Some (js "pixel 8")) None)) initial)) = ∅
  /\ lastCallTs (final (run e (handler (CheckEsim (Some (js "pixel 8")) None)) initial)) = 10000.
Proof.
  intros e.
  destruct (upstream_failure_is_500 initial (CheckEsim (Some (js "pixel 8")) None) e
              (CallGetDevice (js "google_pixel_8-12546")) (Sample.http 404))
    as ([msg Hresp] & Hcache & _ & Hlast).
  - vm_compute. apply list_elem_of_further, list_elem_of_here.
  - reflexivity.
  - reflexivity.
  - split; [|split; [exact Hcache | exact Hlast]].
    rewrite Hresp. vm_compute in Hresp. by injection Hresp as ->.
Defined.

Lemma null_first_result_is_500_witness :
  let e := Env (Sample.steady 10000)
               (Sample.provider (Resolved (Some [None; Some Sample.pixel]))
                                (Resolved Sample.pixelDetail)) in
  calls (run e (checkEsim (Some (js "pixel 8")) None) initial) = [CallSearch (Some (js "pixel 8"))]
  /\ cache (final (run e (checkEsim (Some (js "pixel 8")) None) initial)) = ∅.
Proof.
  intros e.
  rewrite (null_first_result_is_500 initial (Some (js "pixel 8")) None e [Some Sample.pixel]).
  - split; reflexivity.
  - vm_compute. reflexivity.
  - reflexivity.
  - vm_compute. discriminate.
  - reflexivity.
Defined.

Lemma search_succeeds_witness :
  let e := Env (Sample.steady 10000)
               (Sample.provider (Resolved None) (Resolved Sample.noSim)) in
  run e (searchDevices (Some (js " galaxy "))) initial
  = RunResult (Resolved (Response 200 (ResultsBody [])))
              (setLastCallTs 10000 initial) [CallSearch (Some (js "galaxy"))] 2.
Proof.
  intros e. apply (search_succeeds initial (Some (js " galaxy ")) e None).
  - vm_compute. reflexivity.
  - vm_compute. discriminate.
  - reflexivity.
Defined.

Lemma cache_entries_coherent_witness :
  coherent (js "q:iphone 99") (NotFound MsgNoDevice).
Proof.
  apply (cache_entries_coherent (srv (play Sample.missThenRepeat))).
  - by exists Sample.missThenRepeat.
  - vm_compute. reflexivity.
Defined.

Lemma search_hit_fields_witness :
  hit_image (toHit Sample.pixel) <> Some []
  /\ hit_brand (toHit Sample.pixel) <> Some [].
Proof.
  destruct (search_hit_fields [None; Some Sample.pixel] (toHit Sample.pixel))
    as (_ & Himage & Hbrand).
  - vm_compute. apply list_elem_of_here.
  - split; [exact Himage | exact Hbrand].
Defined.

Lemma rejected_400_iff_invalid_witness :
  let e := Env (Sample.steady 10000)
               (Sample.provider (Resolved (Some [])) (Resolved Sample.noSim)) in
  let bad msg := RunResult (Resolved (Response 400 (ErrorBody msg None None)))
                           initial [] 0 in
  (exists msg, run e (handler (CheckEsim (Some (js "  ")) None)) initial = bad msg)
  /\ (exists msg, run e (handler (CheckEsim (Some [160; 8195]%N) None)) initial = bad msg)
  /\ (exists msg, run e (handler (SearchDevices (Some [8232; 65279]%N))) initial = bad msg)
  /\ (forall r,
        settled (run e (handler (CheckEsim (Some [160]%N) (Some (js "tablet_c-3")))) initial)
        = Resolved r -> status r <> 400)
  /\ (forall r,
        settled (run e (handler (SearchDevices (Some ([160]%N ++ js "galaxy")))) initial)
        = Resolved r -> status r <> 400).
Proof.
  intros e bad.
  split; [|split; [|split; [|split]]].
  - destruct (rejected_400_iff_invalid initial (CheckEsim (Some (js "  ")) None) e)
      as [Hbad _].
    apply Hbad. reflexivity.
  - destruct (rejected_400_iff_invalid initial (CheckEsim (Some [160; 8195]%N) None) e)
      as [Hbad _].
    apply Hbad. reflexivity.
  - destruct (rejected_400_iff_invalid initial (SearchDevices (Some [8232; 65279]%N)) e)
      as [Hbad _].
    apply Hbad. reflexivity.
  - destruct (rejected_400_iff_invalid initial
                (CheckEsim (Some [160]%N) (Some (js "tablet_c-3"))) e) as [_ Hok].
    apply Hok. reflexivity.
  - destruct (rejected_400_iff_invalid initial
                (SearchDevices (Some ([160]%N ++ js "galaxy"))) e) as [_ Hok].
    apply Hok. reflexivity.
Defined.

Lemma unusable_section_ignored_witness :
  scanSim (DeviceDetail None
             (Some [Sample.section [Sample.entry (js "SIM") (VString (js "Nano-SIM"))];
                    Some {| specifications := Some [None; Some (SpecEntry (Some (js "SIM")) None)] |};
                    Sample.section [Sample.entry (js "Colors") (VString (js "Black"))]]))
  = scanSim (DeviceDetail None
               (Some [Sample.section [Sample.entry (js "SIM") (VString (js "Nano-SIM"))];
                      Sample.section [Sample.entry (js "Colors") (VString (js "Black"))]])).
Proof.
  apply (unusable_section_ignored None
           [Sample.section [Sample.entry (js "SIM") (VString (js "Nano-SIM"))]]
           [Sample.section [Sample.entry (js "Colors") (VString (js "Black"))]]
           (Some {| specifications := Some [None; Some (SpecEntry (Some (js "SIM")) None)] |})).
  intros x Hx. vm_compute in Hx.
  apply list_elem_of_singleton in Hx as ->. reflexivity.
Defined.
